(** * The chat session orchestrator of the shopping front end

    A shallow embedding of [frontend/src/lib/api.ts] (the HTTP client) and
    of the [useAgentChat] hook (the session store), followed by the
    properties of the session store that the specification states.

    Promises are modelled by their settlement ([Fulfilled] / [Rejected]);
    an [async] function suspended at an [await] is a frame in the hook's
    list of suspended turns, resumed by the event that settles its network
    call.  React's [useCallback] is modelled by its memo cell, so that the
    [state] binding a callback closes over is the one of the render that
    created it. *)

From Stdlib Require Import NArith DecimalString.
From stdpp Require Import base tactics option list strings.

Local Open Scope string_scope.
Local Open Scope list_scope.
Local Open Scope nat_scope.

(** ** JavaScript values and operators used by the source *)

Module Js.

(** An optional and nullable property, [f?: T | null]. *)
Inductive Field (A : Type) : Type :=
| Absent
| Null
| Present (v : A).
Global Arguments Absent {A}.
Global Arguments Null {A}.
Global Arguments Present {A} v.

(** [x ?? d]: the default replaces [undefined] and [null] only. *)
Definition nullish {A : Type} (x : Field A) (d : A) : A :=
  match x with
  | Present v => v
  | Absent | Null => d
  end.

(** [s || d] on strings: the empty string is the only falsy string. *)
Definition or_else (s d : string) : string :=
  match s with
  | EmptyString => d
  | String _ _ => s
  end.

(** [o || d] where [o] may be [undefined] (an unset environment variable). *)
Definition or_else_undef (o : option string) (d : string) : string :=
  match o with
  | None => d
  | Some s => or_else s d
  end.

(** [l.slice(-k)]: the start index is [max (length l - k) 0]. *)
Definition slice_last {A : Type} (k : nat) (l : list A) : list A :=
  drop (length l - k) l.

(** Template-literal rendering of a non-negative integer. *)
Definition show_N (n : N) : string :=
  NilZero.string_of_uint (N.to_uint n).

(** An [Error] object: [new Error(m)] has name ["Error"]; an aborted
    fetch rejects with a [DOMException] named ["AbortError"]. *)
Record Error : Type := { name : string; message : string }.

Definition new_Error (m : string) : Error :=
  {| name := "Error"; message := m |}.

(** How a promise settles. *)
Inductive Settled (T : Type) : Type :=
| Fulfilled (v : T)
| Rejected (e : Error).
Global Arguments Fulfilled {T} v.
Global Arguments Rejected {T} e.

End Js.

(** ** [lib/api.ts]: wire types and the HTTP client *)

Module Api.
Import Js.

Record ProductCard : Type := {
  pc_id : string;
  pc_title : Field string;
  pc_brand : Field string;
  pc_image_url : Field string;
  pc_price_cents : Field Z;
  pc_currency : option string;
  pc_in_stock : option bool;
  pc_url : Field string;
  pc_badges : Field (list string)
}.

Inductive Role : Type := user | assistant.

(** One entry of the outbound context, [{role, content}]. *)
Record ContextEntry : Type := { ce_role : Role; ce_content : string }.

Record AgentChatRequest : Type := {
  req_message : string;
  req_context : Field (list ContextEntry)
}.

Inductive Intent : Type :=
| chitchat | text_recommendation | image_search | catalog_qna.

Record AgentChatResponse : Type := {
  intent : Intent;
  answer : string;
  products : Field (list ProductCard);
  refinements : Field (list string)
}.

Record UploadResponse : Type := { upload_id : string; upload_url : string }.

(** A [File] picked by the user. *)
Record File : Type := { file_name : string; file_bytes : list Byte.byte }.

(** The [Response] object [fetch] resolves to.  [res_text] and [res_json]
    are the settlements of [res.text()] and [res.json()]; [res.ok] is the
    Fetch standard's "status in the range 200 to 299". *)
Record Response (T : Type) : Type := {
  res_status : N;
  res_text : Settled string;
  res_json : Settled T
}.
Global Arguments res_status {T} _.
Global Arguments res_text {T} _.
Global Arguments res_json {T} _.

Definition res_ok {T : Type} (res : Response T) : bool :=
  ((200 <=? res_status res) && (res_status res <=? 299))%N.

(** [http<T>(input, init)], given the settlement of [fetch(input, init)]. *)
Definition http {T : Type} (fetched : Settled (Response T)) : Settled T :=
  match fetched with
  | Rejected e => Rejected e
  | Fulfilled res =>
      if negb (res_ok res) then
        let text :=
          match res_text res with
          | Fulfilled s => s
          | Rejected _ => ""
          end in
        Rejected (new_Error
          (or_else text ("Request failed: " +:+ show_N (res_status res))))
      else res_json res
  end.

(** What is handed to [fetch]. *)
Inductive Body : Type :=
| NoBody
| JsonBody (b : AgentChatRequest)
| FormBody (fields : list (string * File)).

Record Request : Type := {
  rq_url : string;
  rq_method : string;
  rq_headers : list (string * string);
  rq_body : Body;
  rq_signal : option nat
}.

Module ApiClient.

Definition chat_request (body : AgentChatRequest) (signal : option nat)
  : Request :=
  {| rq_url := "/api/agent/chat";
     rq_method := "POST";
     rq_headers := [("Content-Type", "application/json")];
     rq_body := JsonBody body;
     rq_signal := signal |}.

Definition uploadImage_request (file : File) (signal : option nat)
  : Request :=
  {| rq_url := "/api/uploads";
     rq_method := "POST";
     rq_headers := [];
     rq_body := FormBody [("file", file)];
     rq_signal := signal |}.

Definition getProduct_request (isServer : bool)
    (API_BASE_URL : option string) (productId : string)
    (signal : option nat) : Request :=
  let base :=
    if isServer then or_else_undef API_BASE_URL "http://localhost:8000"
    else "" in
  {| rq_url := base +:+ "/products/" +:+ productId;
     rq_method := "GET";
     rq_headers := [];
     rq_body := NoBody;
     rq_signal := signal |}.

(** In the three calls below [fetch] is the network: how the browser's
    [fetch] settles on the request it is handed. *)

Definition chat (fetch : Request → Settled (Response AgentChatResponse))
    (body : AgentChatRequest) (signal : option nat)
  : Settled AgentChatResponse :=
  http (fetch (chat_request body signal)).

Definition uploadImage (fetch : Request → Settled (Response UploadResponse))
    (file : File) (signal : option nat) : Settled UploadResponse :=
  http (fetch (uploadImage_request file signal)).

Definition getProduct {ProductDetail : Type}
    (fetch : Request → Settled (Response ProductDetail))
    (isServer : bool) (API_BASE_URL : option string)
    (productId : string) (signal : option nat) : Settled ProductDetail :=
  http (fetch (getProduct_request isServer API_BASE_URL productId signal)).

End ApiClient.

End Api.

(** ** React: the memo cell of [useCallback] *)

Module React.

(** The function object a [useCallback] cell holds: [born] is the render
    that created it (its identity under [Object.is]), [deps] the
    identities of the dependencies it was created with, and [env] what
    its body closes over from that render. *)
Record Callback (E : Type) : Type := {
  born : nat;
  deps : list nat;
  env : E
}.
Global Arguments born {E} _.
Global Arguments deps {E} _.
Global Arguments env {E} _.

(** [useCallback(fn, deps)] in render [n]: the cell keeps its function
    unless a dependency changed (or the cell is new). *)
Definition useCallback {E : Type} (cell : option (Callback E)) (n : nat)
    (ds : list nat) (e : E) : Callback E :=
  match cell with
  | Some cb =>
      if decide (deps cb = ds) then cb
      else {| born := n; deps := ds; env := e |}
  | None => {| born := n; deps := ds; env := e |}
  end.

End React.

(** ** The [useAgentChat] hook *)

Module UseAgentChat.
Import Js Api React.

Record UiMessage : Type := {
  id : string;
  role : Role;
  content : string
}.

Record AgentState : Type := {
  messages : list UiMessage;
  products : list ProductCard;
  refinements : list string;
  isLoading : bool;
  lastUploadId : option string
}.

(** The argument of [useState]. *)
Definition initialState : AgentState :=
  {| messages :=
       [ {| id := "m-welcome";
            role := assistant;
            content :=
              "Hi! I can help you find products. What are you looking for today?" |} ];
     products := [];
     refinements := ["recommendations"; "image search"; "product details"];
     isLoading := false;
     lastUploadId := None |}.

(** The spread updates [{ ...prev, f: v }]. *)
Definition with_messages (v : list UiMessage) (prev : AgentState) : AgentState :=
  {| messages := v; products := products prev;
     refinements := refinements prev; isLoading := isLoading prev;
     lastUploadId := lastUploadId prev |}.

Definition with_isLoading (v : bool) (prev : AgentState) : AgentState :=
  {| messages := messages prev; products := products prev;
     refinements := refinements prev; isLoading := v;
     lastUploadId := lastUploadId prev |}.

Definition with_lastUploadId (v : string) (prev : AgentState) : AgentState :=
  {| messages := messages prev; products := products prev;
     refinements := refinements prev; isLoading := isLoading prev;
     lastUploadId := Some v |}.

(** The memo cells of the hook, in the order the hook declares them.
    [sendText] and [uploadAndSearch] read [state]; [refineWith] calls the
    [sendText] of its render; the other bodies read nothing that varies
    between renders. *)
Record Cells : Type := {
  cancel_cb : Callback unit;
  appendMessage_cb : Callback unit;
  sendText_cb : Callback AgentState;
  uploadAndSearch_cb : Callback AgentState;
  refineWith_cb : Callback (Callback AgentState);
  handleAgentResponse_cb : Callback unit
}.

(** One execution of the hook body: render [n], with [state] the value
    [useState] returns in that render. *)
Definition render (prev : option Cells) (n : nat) (state : AgentState) : Cells :=
  let cancel := useCallback (cancel_cb <$> prev) n [] () in
  let appendMessage := useCallback (appendMessage_cb <$> prev) n [] () in
  let sendText :=
    useCallback (sendText_cb <$> prev) n [born appendMessage] state in
  let uploadAndSearch :=
    useCallback (uploadAndSearch_cb <$> prev) n [born appendMessage] state in
  let refineWith :=
    useCallback (refineWith_cb <$> prev) n [born sendText] sendText in
  let handleAgentResponse :=
    useCallback (handleAgentResponse_cb <$> prev) n [born appendMessage] () in
  {| cancel_cb := cancel; appendMessage_cb := appendMessage;
     sendText_cb := sendText; uploadAndSearch_cb := uploadAndSearch;
     refineWith_cb := refineWith;
     handleAgentResponse_cb := handleAgentResponse |}.

(** An invocation of an [async] callback suspended at an [await].  [ac] is
    the [AbortController] the invocation created, [rq] the request in
    flight; an [uploadAndSearch] awaiting the upload still needs the
    [state] binding of its closure for the context it builds later. *)
Inductive Frame : Type :=
| SendText_awaits_chat (ac : nat) (rq : Request)
| Upload_awaits_upload (ac : nat) (rq : Request) (seen : AgentState)
| Upload_awaits_chat (ac : nat) (rq : Request).

Definition frame_ac (f : Frame) : nat :=
  match f with
  | SendText_awaits_chat ac _ => ac
  | Upload_awaits_upload ac _ _ => ac
  | Upload_awaits_chat ac _ => ac
  end.

Definition frame_request (f : Frame) : Request :=
  match f with
  | SendText_awaits_chat _ rq => rq
  | Upload_awaits_upload _ rq _ => rq
  | Upload_awaits_chat _ rq => rq
  end.

(** The mounted hook.  [state] is React's state with every queued
    functional update applied; [controllers] holds the [aborted] flag of
    every [AbortController] created so far, by creation index;
    [abortRef] is [abortRef.current]. *)
Record Hook : Type := {
  state : AgentState;
  abortRef : option nat;
  controllers : list bool;
  suspended : list Frame;
  cells : Cells;
  renders : nat
}.

Definition setState (f : AgentState → AgentState) (h : Hook) : Hook :=
  {| state := f (state h); abortRef := abortRef h;
     controllers := controllers h; suspended := suspended h;
     cells := cells h; renders := renders h |}.

Definition with_abortRef (r : option nat) (h : Hook) : Hook :=
  {| state := state h; abortRef := r;
     controllers := controllers h; suspended := suspended h;
     cells := cells h; renders := renders h |}.

Definition with_controllers (cs : list bool) (h : Hook) : Hook :=
  {| state := state h; abortRef := abortRef h;
     controllers := cs; suspended := suspended h;
     cells := cells h; renders := renders h |}.

Definition with_suspended (fs : list Frame) (h : Hook) : Hook :=
  {| state := state h; abortRef := abortRef h;
     controllers := controllers h; suspended := fs;
     cells := cells h; renders := renders h |}.

(** [abortRef.current?.abort()] *)
Definition abort_current (h : Hook) : Hook :=
  match abortRef h with
  | Some ac => with_controllers (<[ac := true]> (controllers h)) h
  | None => h
  end.

(** [new AbortController()] *)
Definition new_AbortController (h : Hook) : nat * Hook :=
  (length (controllers h), with_controllers (controllers h ++ [false]) h).

Definition await (f : Frame) (h : Hook) : Hook :=
  with_suspended (suspended h ++ [f]) h.

Definition cancel (h : Hook) : Hook :=
  with_abortRef None (abort_current h).

Definition appendMessage (msg : UiMessage) (h : Hook) : Hook :=
  setState (λ prev, with_messages (messages prev ++ [msg]) prev) h.

Definition handleAgentResponse (uuid : string) (resp : AgentChatResponse)
    (h : Hook) : Hook :=
  let h := appendMessage
             {| id := uuid; role := assistant; content := answer resp |} h in
  setState
    (λ prev,
       {| messages := messages prev;
          products := nullish (Api.products resp) [];
          refinements := nullish (Api.refinements resp) (refinements prev);
          isLoading := isLoading prev;
          lastUploadId := lastUploadId prev |}) h.

(** [state.messages.slice(-10).map((m) => ({ role, content }))], with
    [state] the binding of the closure that runs. *)
Definition context_of (state : AgentState) : list ContextEntry :=
  (λ m, {| ce_role := role m; ce_content := content m |})
    <$> slice_last 10 (messages state).

(** [sendText(text)] up to its [await]; [uuid] is what
    [crypto.randomUUID()] returns. *)
Definition sendText (cb : Callback AgentState) (uuid text : string)
    (h : Hook) : Hook :=
  let h := appendMessage {| id := uuid; role := user; content := text |} h in
  let h := setState (with_isLoading true) h in
  let h := abort_current h in
  let '(ac, h) := new_AbortController h in
  let h := with_abortRef (Some ac) h in
  let context := context_of (env cb) in
  await (SendText_awaits_chat ac
           (ApiClient.chat_request
              {| req_message := text; req_context := Present context |}
              (Some ac))) h.

(** The rest of a chat turn once [ApiClient.chat] has settled: the
    [try] continuation, the [catch] branch and the [finally] block.
    [fallback] is the literal of the [catch] branch. *)
Definition chat_settled (fallback uuid : string)
    (result : Settled AgentChatResponse) (h : Hook) : Hook :=
  let h :=
    match result with
    | Fulfilled resp => handleAgentResponse uuid resp h
    | Rejected err =>
        appendMessage
          {| id := uuid; role := assistant;
             content := or_else (message err) fallback |} h
    end in
  setState (with_isLoading false) h.

Definition sendText_resume : string → Settled AgentChatResponse → Hook → Hook :=
  chat_settled "Something went wrong".

(** [uploadAndSearch(file)] up to its first [await]. *)
Definition uploadAndSearch (cb : Callback AgentState) (file : File)
    (h : Hook) : Hook :=
  let h := setState (with_isLoading true) h in
  let h := abort_current h in
  let '(ac, h) := new_AbortController h in
  let h := with_abortRef (Some ac) h in
  await (Upload_awaits_upload ac
           (ApiClient.uploadImage_request file (Some ac)) (env cb)) h.

(** [uploadAndSearch] from the settlement of [ApiClient.uploadImage] to
    its second [await], or through [catch] and [finally]. *)
Definition uploadAndSearch_resume_upload (ac : nat) (seen : AgentState)
    (uuid : string) (result : Settled UploadResponse) (h : Hook) : Hook :=
  match result with
  | Fulfilled up =>
      let h := setState (with_lastUploadId (upload_id up)) h in
      let marker := "image:" +:+ upload_id up in
      let h := appendMessage
                 {| id := uuid; role := user; content := marker |} h in
      let context := context_of seen in
      await (Upload_awaits_chat ac
               (ApiClient.chat_request
                  {| req_message := marker; req_context := Present context |}
                  (Some ac))) h
  | Rejected err =>
      let h := appendMessage
                 {| id := uuid; role := assistant;
                    content := or_else (message err) "Upload failed" |} h in
      setState (with_isLoading false) h
  end.

Definition uploadAndSearch_resume_chat : string → Settled AgentChatResponse → Hook → Hook :=
  chat_settled "Upload failed".

(** [refineWith(chip)]: [void sendText(chip)] with the [sendText] its
    closure holds. *)
Definition refineWith (cb : Callback (Callback AgentState))
    (uuid chip : string) (h : Hook) : Hook :=
  sendText (env cb) uuid chip h.

(** *** The event loop *)

(** What can happen to a mounted hook: the page calls one of the four
    functions the hook returns, or the network settles the [fetch] of a
    suspended turn (named by its controller).  [uuid] is the next value of
    [crypto.randomUUID()]. *)
Inductive Event : Type :=
| Call_sendText (uuid text : string)
| Call_uploadAndSearch (file : File)
| Call_refineWith (uuid chip : string)
| Call_cancel
| Chat_settles (ac : nat) (uuid : string)
    (fetched : Settled (Response AgentChatResponse))
| Upload_settles (ac : nat) (uuid : string)
    (fetched : Settled (Response UploadResponse)).

(** Removes the first frame of controller [ac] that satisfies [want]. *)
Fixpoint take_frame (want : Frame → bool) (ac : nat) (fs : list Frame)
    : option (Frame * list Frame) :=
  match fs with
  | [] => None
  | f :: fs' =>
      if want f && bool_decide (frame_ac f = ac) then Some (f, fs')
      else
        match take_frame want ac fs' with
        | Some (g, rest) => Some (g, f :: rest)
        | None => None
        end
  end.

Definition awaits_chat (f : Frame) : bool :=
  match f with
  | SendText_awaits_chat _ _ | Upload_awaits_chat _ _ => true
  | Upload_awaits_upload _ _ _ => false
  end.

Definition awaits_upload (f : Frame) : bool := negb (awaits_chat f).

(** React runs the hook body again after an update. *)
Definition rerender (h : Hook) : Hook :=
  {| state := state h; abortRef := abortRef h;
     controllers := controllers h; suspended := suspended h;
     cells := render (Some (cells h)) (S (renders h)) (state h);
     renders := S (renders h) |}.

(** The page calls the functions returned by the latest render. *)
Definition handle (ev : Event) (h : Hook) : Hook :=
  match ev with
  | Call_sendText uuid text => sendText (sendText_cb (cells h)) uuid text h
  | Call_uploadAndSearch file =>
      uploadAndSearch (uploadAndSearch_cb (cells h)) file h
  | Call_refineWith uuid chip =>
      refineWith (refineWith_cb (cells h)) uuid chip h
  | Call_cancel => cancel h
  | Chat_settles ac uuid fetched =>
      match take_frame awaits_chat ac (suspended h) with
      | Some (SendText_awaits_chat _ _, rest) =>
          sendText_resume uuid (http fetched) (with_suspended rest h)
      | Some (Upload_awaits_chat _ _, rest) =>
          uploadAndSearch_resume_chat uuid (http fetched)
            (with_suspended rest h)
      | _ => h
      end
  | Upload_settles ac uuid fetched =>
      match take_frame awaits_upload ac (suspended h) with
      | Some (Upload_awaits_upload _ _ seen, rest) =>
          uploadAndSearch_resume_upload ac seen uuid (http fetched)
            (with_suspended rest h)
      | _ => h
      end
  end.

Definition step (h : Hook) (ev : Event) : Hook := rerender (handle ev h).

Definition run (evs : list Event) (h : Hook) : Hook := foldl step h evs.

(** The hook after its first render. *)
Definition mount : Hook :=
  {| state := initialState; abortRef := None; controllers := [];
     suspended := []; cells := render None 0 initialState; renders := 0 |}.

(** A turn is in flight while it is suspended and its signal has not
    been aborted. *)
Definition aborted (h : Hook) (ac : nat) : bool :=
  default false (controllers h !! ac).

Definition in_flight (h : Hook) : list Frame :=
  filter (λ f, aborted h (frame_ac f) = false) (suspended h).

(** The chat requests of the suspended turns, oldest first. *)
Definition outbound_chat (h : Hook) : list AgentChatRequest :=
  omap (λ f, match rq_body (frame_request f) with
             | JsonBody b => Some b
             | _ => None
             end) (suspended h).

End UseAgentChat.

(** ** The statements of the specification, in terms of the model *)

Module Spec.
Import Js Api React UseAgentChat.

(** A status of the 2xx class. *)
Definition is_2xx (n : N) : Prop := (200 ≤ n ∧ n ≤ 299)%N.

(** The text a failed call surfaces: the response body when it is
    non-empty, otherwise a generic message that ends with the status. *)
Definition surfaced_message {T : Type} (res : Response T) : string :=
  match res_text res with
  | Fulfilled (String c s) => String c s
  | _ => "Request failed: " +:+ show_N (res_status res)
  end.

(** What a client call owes for the response [res] its [fetch] got. *)
Definition http_contract {T : Type} (res : Response T) (out : Settled T)
    : Prop :=
  (¬ is_2xx (res_status res) →
     ∃ e, out = Rejected e ∧ message e = surfaced_message res)
  ∧ (is_2xx (res_status res) → out = res_json res).

(** The context the specification asks for: the trailing ten messages,
    each reduced to its role and content. *)
Definition trailing_context (msgs : list UiMessage) : list ContextEntry :=
  (λ m, {| ce_role := role m; ce_content := content m |})
    <$> drop (length msgs - 10) msgs.

(** The event is a chat settlement whose response carries refinements. *)
Definition supplies_refinements (ev : Event) : bool :=
  match ev with
  | Chat_settles _ _ fetched =>
      match http fetched with
      | Fulfilled resp =>
          match Api.refinements resp with
          | Present _ => true
          | Absent | Null => false
          end
      | Rejected _ => false
      end
  | _ => false
  end.

(** The frames of a hook name controllers that exist. *)
Definition frames_known (h : Hook) : Prop :=
  Forall (λ f, frame_ac f < length (controllers h)) (suspended h).

End Spec.

(** ** The components that render the session *)

Module Components.
Import Stdlib.Strings.Ascii.
Import Js Api React UseAgentChat.

(** A character of a [string] stands for one UTF-16 code unit below 256.
    In that range [String.prototype.trim] and the class [\s] know the same
    white space: TAB, LF, VT, FF, CR, SP and NBSP. *)
Definition is_space (c : ascii) : bool :=
  match N_of_ascii c with
  | 9 | 10 | 11 | 12 | 13 | 32 | 160 => true
  | _ => false
  end%N.

(** The class [\w]: [A-Za-z0-9_]. *)
Definition is_word (c : ascii) : bool :=
  let n := N_of_ascii c in
  ((48 <=? n) && (n <=? 57) || (65 <=? n) && (n <=? 90)
   || (97 <=? n) && (n <=? 122) || (n =? 95))%N.

(** The class [[\w\-.]]. *)
Definition is_id_char (c : ascii) : bool :=
  is_word c || (N_of_ascii c =? 45)%N || (N_of_ascii c =? 46)%N.

Fixpoint trim_start (s : string) : string :=
  match s with
  | EmptyString => EmptyString
  | String c s' => if is_space c then trim_start s' else s
  end.

Fixpoint trim_end (s : string) : string :=
  match s with
  | EmptyString => EmptyString
  | String c s' =>
      match trim_end s' with
      | EmptyString => if is_space c then EmptyString else String c EmptyString
      | String d t => String c (String d t)
      end
  end.

(** [s.trim()] *)
Definition trim (s : string) : string := trim_end (trim_start s).

Fixpoint all_chars (p : ascii → bool) (s : string) : bool :=
  match s with
  | EmptyString => true
  | String c s' => p c && all_chars p s'
  end.

(** The rest of [s] after the literal [p], when [s] starts with it. *)
Fixpoint strip_prefix (p s : string) : option string :=
  match p, s with
  | EmptyString, _ => Some s
  | String a p', String b s' =>
      if bool_decide (a = b) then strip_prefix p' s' else None
  | String _ _, EmptyString => None
  end.

(** Group 1 of [/^image:\s*([\w\-.]+)$/.exec(content.trim())], or [None]
    when the expression does not match.  The two classes are disjoint, so
    [\s*] takes all the white space after the colon and the group takes
    the rest, which must be non-empty and reach the end. *)
Definition image_match (content : string) : option string :=
  match strip_prefix "image:" (trim content) with
  | Some rest =>
      match trim_start rest with
      | EmptyString => None
      | String c t =>
          if all_chars is_id_char (String c t) then Some (String c t)
          else None
      end
  | None => None
  end.

(** What a [Message] puts inside its bubble. *)
Inductive Bubble : Type :=
| TypingDots
| UploadedImage (src : string)
| PlainText (content : string).

(** The parts of a rendered [Message] that depend on its props: the side
    it is aligned to, whether the avatar is shown, whether the bubble is
    bare (class [p-0]) and its body. *)
Record MessageView : Type := {
  justify_end : bool;
  avatar : bool;
  bare : bool;
  body : Bubble
}.

(** [Message({ role, content, typing })] *)
Definition Message (role : Role) (content : string) (typing : bool)
    : MessageView :=
  let isUser := match role with user => true | assistant => false end in
  let imageUrl := (λ id, "/uploads/" +:+ id) <$> image_match content in
  {| justify_end := isUser;
     avatar := negb isUser;
     bare := match imageUrl with Some _ => true | None => false end;
     body :=
       if typing && negb isUser then TypingDots
       else
         match imageUrl with
         | Some url => if isUser then UploadedImage url else PlainText content
         | None => PlainText content
         end |}.

(** [RefineChips.tsx] *)
Definition defaultChips : list string :=
  ["under $50"; "free shipping"; "eco-friendly"; "best sellers"].

(** The labels of the buttons [RefineChips({ chips })] renders, in order;
    the default applies when the prop is [undefined]. *)
Definition RefineChips (chips : option (list string)) : list string :=
  default defaultChips chips.

(** [UploadButton]'s [onChange]: the file handed to [onUpload], if any.
    [files] is [e.target.files]. *)
Definition UploadButton_onChange (files : option (list File)) : option File :=
  files ≫= head.

(** [AgentChat]: the hook it mounts and its [input] state. *)
Record AgentChat : Type := {
  hook : Hook;
  input : string
}.

Definition AgentChat_mount : AgentChat := {| hook := mount; input := "" |}.

(** The form's [onSubmit]. *)
Definition onSubmit (uuid : string) (a : AgentChat) : AgentChat :=
  let text := trim (input a) in
  match text with
  | EmptyString => a
  | String _ _ =>
      {| hook := step (hook a) (Call_sendText uuid text); input := "" |}
  end.

(** The input's [onChange]. *)
Definition onInput (value : string) (a : AgentChat) : AgentChat :=
  {| hook := hook a; input := value |}.

(** The chips [AgentChat] shows, and a tap on one of them. *)
Definition AgentChat_chips (a : AgentChat) : list string :=
  RefineChips (Some (refinements (state (hook a)))).

Definition onChip (uuid q : string) (a : AgentChat) : AgentChat :=
  {| hook := step (hook a) (Call_refineWith uuid q); input := input a |}.

(** A change of the file input inside [UploadButton]. *)
Definition onFiles (files : option (list File)) (a : AgentChat) : AgentChat :=
  match UploadButton_onChange files with
  | Some f => {| hook := step (hook a) (Call_uploadAndSearch f); input := input a |}
  | None => a
  end.

(** The message list [AgentChat] renders: one [Message] per session
    message and, while loading, the typing bubble. *)
Definition AgentChat_list (a : AgentChat) : list MessageView :=
  ((λ m, Message (role m) (content m) false) <$> messages (state (hook a)))
  ++ (if isLoading (state (hook a)) then [Message assistant "" true] else []).

Definition send_disabled (a : AgentChat) : bool := isLoading (state (hook a)).

Definition send_label (a : AgentChat) : string :=
  if isLoading (state (hook a)) then "Sending..." else "Send".

(** [ProductPage]: what the page shows for a product id.  The parsed body
    is [None] when it is [null]. *)
Inductive ProductView (ProductDetail : Type) : Type :=
| ProductNotFound
| ProductShown (product : ProductDetail).
Global Arguments ProductNotFound {ProductDetail}.
Global Arguments ProductShown {ProductDetail} product.

Definition ProductPage {ProductDetail : Type}
    (fetch : Request → Settled (Response (option ProductDetail)))
    (isServer : bool) (API_BASE_URL : option string) (id : string)
    : ProductView ProductDetail :=
  let product :=
    match ApiClient.getProduct fetch isServer API_BASE_URL id None with
    | Fulfilled p => p
    | Rejected _ => None
    end in
  match product with
  | None => ProductNotFound
  | Some p => ProductShown p
  end.

End Components.

(** ** Invariants of the session store, as predicates on hooks and events *)

Module Invariants.
Import Js Api React UseAgentChat.

(** The event is a chat settlement that fulfils with a response. *)
Definition chat_fulfils (ev : Event) : bool :=
  match ev with
  | Chat_settles _ _ fetched =>
      match http fetched with
      | Fulfilled _ => true
      | Rejected _ => false
      end
  | _ => false
  end.

(** The only controller that is not aborted is the current one. *)
Definition one_live_signal (h : Hook) : Prop :=
  ∀ i : nat, controllers h !! i = Some false ↔ abortRef h = Some i.

(** No two suspended turns share a controller. *)
Definition frames_distinct (h : Hook) : Prop :=
  NoDup (frame_ac <$> suspended h).

(** The request of a suspended turn is the one its invocation built in the
    first render's closure: it carries the signal of the turn's own
    controller and, for a chat request, the window of the initial state. *)
Definition frame_wired (f : Frame) : Prop :=
  match f with
  | SendText_awaits_chat ac rq =>
      ∃ text, rq = ApiClient.chat_request
                     {| req_message := text;
                        req_context := Present (context_of initialState) |}
                     (Some ac)
  | Upload_awaits_upload ac rq seen =>
      seen = initialState
      ∧ ∃ file, rq = ApiClient.uploadImage_request file (Some ac)
  | Upload_awaits_chat ac rq =>
      ∃ uploadId, rq = ApiClient.chat_request
                         {| req_message := "image:" +:+ uploadId;
                            req_context := Present (context_of initialState) |}
                         (Some ac)
  end.

End Invariants.

Import Js Api React UseAgentChat Spec Components Invariants.

(** Unfolds the operation behind an event down to the state updates. *)
Ltac unfold_handlers :=
  unfold sendText_resume, uploadAndSearch_resume_chat, chat_settled,
    uploadAndSearch_resume_upload, refineWith, sendText, uploadAndSearch,
    cancel, handleAgentResponse, appendMessage.

(** ** The HTTP client *)

Section Http.
Context {T : Type}.
Implicit Types (res : Response T).

Lemma res_ok_2xx res : res_ok res = true ↔ is_2xx (res_status res).
Proof.
  unfold res_ok, is_2xx.
  rewrite andb_true_iff, !N.leb_le. reflexivity.
Qed.

Lemma or_else_nonempty c s d : or_else (String c s) d = String c s.
Proof. reflexivity. Qed.

Lemma http_non_2xx res :
  ¬ is_2xx (res_status res) →
  http (Fulfilled res) = Rejected (new_Error (surfaced_message res)).
Proof.
  intros Hno. unfold http, surfaced_message.
  destruct (res_ok res) eqn:Hok.
  - exfalso. apply Hno. by apply res_ok_2xx.
  - simpl. by destruct (res_text res) as [[|c s]|e].
Qed.

Lemma http_2xx res :
  is_2xx (res_status res) → http (Fulfilled res) = res_json res.
Proof.
  intros Hyes. apply res_ok_2xx in Hyes. unfold http. by rewrite Hyes.
Qed.

Lemma http_fulfils_contract res : http_contract res (http (Fulfilled res)).
Proof.
  split.
  - intros Hno. rewrite (http_non_2xx _ Hno). by eexists.
  - apply http_2xx.
Qed.

Lemma http_network_error e : http (T := T) (Rejected e) = Rejected e.
Proof. reflexivity. Qed.

End Http.

(** The generic failure text shows the status in decimal. *)
Lemma surfaced_message_generic {T : Type} (res : Response T) :
  res_text res = Fulfilled "" ∨ (∃ e, res_text res = Rejected e) →
  surfaced_message res = "Request failed: " +:+ show_N (res_status res).
Proof. unfold surfaced_message. by intros [->|[e ->]]. Qed.

(** C9. Every call of the client ([chat], [uploadImage], [getProduct]) goes
    through [http]: when [fetch] resolves to a response whose status is not
    2xx the call is rejected, and the rejection's message is the body text
    if that is non-empty and ["Request failed: <status>"] otherwise; when
    the status is 2xx the call settles as [res.json()] does, that is with
    the parsed body. *)
Theorem client_calls_follow_http_contract
    (ProductDetail : Type)
    (fetchChat : Request → Settled (Response AgentChatResponse))
    (fetchUpload : Request → Settled (Response UploadResponse))
    (fetchProduct : Request → Settled (Response ProductDetail))
    (body : AgentChatRequest) (file : File) (isServer : bool)
    (API_BASE_URL : option string) (productId : string)
    (signal : option nat)
    (resC : Response AgentChatResponse) (resU : Response UploadResponse)
    (resP : Response ProductDetail) :
  fetchChat (ApiClient.chat_request body signal) = Fulfilled resC →
  fetchUpload (ApiClient.uploadImage_request file signal) = Fulfilled resU →
  fetchProduct
    (ApiClient.getProduct_request isServer API_BASE_URL productId signal)
    = Fulfilled resP →
  http_contract resC (ApiClient.chat fetchChat body signal)
  ∧ http_contract resU (ApiClient.uploadImage fetchUpload file signal)
  ∧ http_contract resP
      (ApiClient.getProduct fetchProduct isServer API_BASE_URL productId signal).
Proof.
  intros HC HU HP.
  unfold ApiClient.chat, ApiClient.uploadImage, ApiClient.getProduct.
  rewrite HC, HU, HP.
  split_and!; apply http_fulfils_contract.
Qed.

(** A run of the three calls: a 404 with a body, a 500 whose body cannot be
    read, and a 200. *)
Lemma client_calls_follow_http_contract_witness :
  let body := {| req_message := "shoes"; req_context := Absent |} in
  let file := {| file_name := "a.png"; file_bytes := [] |} in
  let resC : Response AgentChatResponse :=
    {| res_status := 404; res_text := Fulfilled "no such route";
       res_json := Rejected (new_Error "Unexpected token") |} in
  let resU : Response UploadResponse :=
    {| res_status := 500; res_text := Rejected (new_Error "stream closed");
       res_json := Rejected (new_Error "Unexpected token") |} in
  let resP : Response string :=
    {| res_status := 200; res_text := Fulfilled "{}";
       res_json := Fulfilled "p1" |} in
  http_contract resC (ApiClient.chat (λ _, Fulfilled resC) body None)
  ∧ http_contract resU (ApiClient.uploadImage (λ _, Fulfilled resU) file None)
  ∧ http_contract resP
      (ApiClient.getProduct (λ _, Fulfilled resP) false None "p1" None).
Proof.
  intros body file resC resU resP.
  apply (client_calls_follow_http_contract string
           (λ _, Fulfilled resC) (λ _, Fulfilled resU) (λ _, Fulfilled resP));
    reflexivity.
Defined.

Example http_404_with_body :
  http (T := unit)
    (Fulfilled {| res_status := 404; res_text := Fulfilled "no such route";
                  res_json := Fulfilled () |})
  = Rejected (new_Error "no such route").
Proof. reflexivity. Qed.

Example http_500_without_body :
  http (T := unit)
    (Fulfilled {| res_status := 500; res_text := Fulfilled "";
                  res_json := Fulfilled () |})
  = Rejected (new_Error "Request failed: 500").
Proof. reflexivity. Qed.

(** ** The session store: how each operation moves the state *)

Section Projections.
Implicit Types (h : Hook) (st : AgentState) (msg : UiMessage).

Lemma state_appendMessage msg h :
  state (appendMessage msg h)
  = with_messages (messages (state h) ++ [msg]) (state h).
Proof. reflexivity. Qed.

Lemma state_abort_current h : state (abort_current h) = state h.
Proof. unfold abort_current. by destruct (abortRef h). Qed.

Lemma suspended_abort_current h : suspended (abort_current h) = suspended h.
Proof. unfold abort_current. by destruct (abortRef h). Qed.

Lemma cells_abort_current h : cells (abort_current h) = cells h.
Proof. unfold abort_current. by destruct (abortRef h). Qed.

Lemma length_controllers_abort_current h :
  length (controllers (abort_current h)) = length (controllers h).
Proof.
  unfold abort_current. destruct (abortRef h); [|done].
  simpl. by rewrite length_insert.
Qed.

(** The state after [sendText] suspends: one user message more, loading. *)
Lemma state_sendText cb uuid text h :
  state (sendText cb uuid text h)
  = with_isLoading true
      (with_messages
         (messages (state h) ++ [ {| id := uuid; role := user; content := text |} ])
         (state h)).
Proof. unfold sendText. simpl. by rewrite state_abort_current. Qed.

Lemma state_uploadAndSearch cb file h :
  state (uploadAndSearch cb file h) = with_isLoading true (state h).
Proof. unfold uploadAndSearch. simpl. by rewrite state_abort_current. Qed.

Lemma state_cancel h : state (cancel h) = state h.
Proof. unfold cancel. simpl. apply state_abort_current. Qed.

(** The state after a chat turn settled: exactly one assistant message
    more, whatever the settlement and whether or not the turn had been
    aborted in the meantime. *)
Lemma messages_chat_settled fallback uuid result h :
  messages (state (chat_settled fallback uuid result h))
  = messages (state h)
    ++ [ {| id := uuid; role := assistant;
            content := match result with
                       | Fulfilled resp => answer resp
                       | Rejected err => or_else (message err) fallback
                       end |} ].
Proof. by destruct result. Qed.

Lemma isLoading_chat_settled fallback uuid result h :
  isLoading (state (chat_settled fallback uuid result h)) = false.
Proof. by destruct result. Qed.

End Projections.

(** *** The memo cells never change *)

Lemma render_keeps_first_cells (st0 st : AgentState) (n : nat) :
  render (Some (render None 0 st0)) n st = render None 0 st0.
Proof. reflexivity. Qed.

Lemma cells_handle (ev : Event) (h : Hook) : cells (handle ev h) = cells h.
Proof.
  destruct ev; simpl;
    unfold sendText_resume, uploadAndSearch_resume_chat, chat_settled,
      uploadAndSearch_resume_upload, refineWith, sendText, uploadAndSearch,
      cancel;
    repeat case_match; simpl; rewrite ?cells_abort_current; done.
Qed.

Lemma cells_run (evs : list Event) (h : Hook) :
  cells h = render None 0 initialState →
  cells (run evs h) = render None 0 initialState.
Proof.
  revert h. induction evs as [|ev evs IH]; intros h Hh; [done|].
  simpl. apply IH. unfold step, rerender. simpl.
  rewrite cells_handle, Hh. apply render_keeps_first_cells.
Qed.

(** Whatever has happened since the mount, the [sendText] the page holds
    is the function of the first render, and the [state] it reads is the
    initial one. *)
Lemma sendText_closure_is_first_render (evs : list Event) :
  sendText_cb (cells (run evs mount))
  = {| born := 0; deps := [0]; env := initialState |}.
Proof. by rewrite cells_run. Qed.

Lemma uploadAndSearch_closure_is_first_render (evs : list Event) :
  uploadAndSearch_cb (cells (run evs mount))
  = {| born := 0; deps := [0]; env := initialState |}.
Proof. by rewrite cells_run. Qed.

Lemma refineWith_closure_holds_sendText (evs : list Event) :
  env (refineWith_cb (cells (run evs mount)))
  = sendText_cb (cells (run evs mount)).
Proof. by rewrite cells_run. Qed.

(** ** The response reducer *)

(** C4. After the reduction of a successful response the products of the
    session are the products of the response when it carries them, and the
    empty sequence when the field is absent (or null), whatever they were
    before; this holds of [handleAgentResponse] and of the whole
    continuation of a chat turn that settled with a response. *)
Theorem reduced_products_replace_or_clear
    (fallback uuid : string) (resp : AgentChatResponse) (h : Hook) :
  let expected :=
    match Api.products resp with
    | Present ps => ps
    | Absent | Null => []
    end in
  products (state (handleAgentResponse uuid resp h)) = expected
  ∧ products (state (chat_settled fallback uuid (Fulfilled resp) h)) = expected.
Proof. simpl. by destruct (Api.products resp). Qed.

Example stale_products_are_cleared :
  let p := {| pc_id := "p1"; pc_title := Absent; pc_brand := Absent;
              pc_image_url := Absent; pc_price_cents := Absent;
              pc_currency := None; pc_in_stock := None; pc_url := Absent;
              pc_badges := Absent |} in
  let h := setState (λ prev, {| messages := messages prev; products := [p];
                                refinements := refinements prev;
                                isLoading := isLoading prev;
                                lastUploadId := lastUploadId prev |}) mount in
  products (state h) = [p]
  ∧ products (state (handleAgentResponse "u"
       {| intent := chitchat; answer := "hello";
          Api.products := Absent; Api.refinements := Absent |} h)) = [].
Proof. done. Qed.

(** C5. After the reduction of a successful response the refinements of
    the session are the refinements of the response when it carries them,
    and exactly what they were before the reduction when the field is
    absent (or null). *)
Theorem reduced_refinements_replace_or_keep
    (fallback uuid : string) (resp : AgentChatResponse) (h : Hook) :
  let expected :=
    match Api.refinements resp with
    | Present rs => rs
    | Absent | Null => refinements (state h)
    end in
  refinements (state (handleAgentResponse uuid resp h)) = expected
  ∧ refinements (state (chat_settled fallback uuid (Fulfilled resp) h))
    = expected.
Proof. simpl. by destruct (Api.refinements resp). Qed.

(** ** Invariants of the event loop *)

Lemma handle_messages_prefix (ev : Event) (h : Hook) :
  messages (state h) `prefix_of` messages (state (handle ev h)).
Proof.
  destruct ev; simpl; unfold_handlers;
    repeat case_match; simpl; rewrite ?state_abort_current; simpl;
    first [ reflexivity | apply prefix_app_r; reflexivity ].
Qed.

Lemma step_messages_prefix (h : Hook) (ev : Event) :
  messages (state h) `prefix_of` messages (state (step h ev)).
Proof. apply handle_messages_prefix. Qed.

Lemma run_messages_prefix (evs : list Event) (h : Hook) :
  messages (state h) `prefix_of` messages (state (run evs h)).
Proof.
  revert h. induction evs as [|ev evs IH]; intros h; [done|].
  simpl. etrans; [apply (step_messages_prefix h ev)|apply IH].
Qed.

(** C6. Along any sequence of calls of [sendText], [uploadAndSearch],
    [refineWith] and [cancel] and of settlements, starting from any hook,
    the messages present at the start are an initial segment of the
    messages at the end: the length does not decrease and every message
    stays, unchanged, at its position. *)
Theorem messages_are_append_only (evs : list Event) (h : Hook) :
  messages (state h) `prefix_of` messages (state (run evs h))
  ∧ length (messages (state h)) ≤ length (messages (state (run evs h)))
  ∧ take (length (messages (state h))) (messages (state (run evs h)))
    = messages (state h).
Proof.
  pose proof (run_messages_prefix evs h) as Hp.
  split_and!; [done|by apply prefix_length|].
  destruct Hp as [k ->]. by rewrite take_app_length.
Qed.

(** *** Chips *)

Lemma outbound_chat_sendText cb uuid text h :
  outbound_chat (sendText cb uuid text h)
  = outbound_chat h
    ++ [ {| req_message := text;
            req_context := Present (context_of (env cb)) |} ].
Proof.
  unfold outbound_chat, sendText. simpl.
  by rewrite omap_app, suspended_abort_current.
Qed.

(** C7. From any state the session can reach, [refineWith s] and
    [sendText s] are the same transition (given the same value of
    [crypto.randomUUID()]), and leave the same requests in flight, the
    newest of them carrying [s] as its message. *)
Theorem refineWith_is_sendText (evs : list Event) (uuid s : string) :
  let h := run evs mount in
  step h (Call_refineWith uuid s) = step h (Call_sendText uuid s)
  ∧ outbound_chat (step h (Call_refineWith uuid s))
    = outbound_chat (step h (Call_sendText uuid s))
  ∧ ∃ context,
      outbound_chat (step h (Call_refineWith uuid s))
      = outbound_chat h
        ++ [ {| req_message := s; req_context := Present context |} ].
Proof.
  intros h.
  assert (step h (Call_refineWith uuid s) = step h (Call_sendText uuid s))
    as Heq.
  { subst h. unfold step, handle, refineWith.
    by rewrite (refineWith_closure_holds_sendText evs). }
  split_and!; [done|by rewrite Heq|].
  rewrite Heq. eexists. unfold step.
  change (outbound_chat (rerender ?x)) with (outbound_chat x).
  apply outbound_chat_sendText.
Qed.

(** *** The default chips *)

Lemma handle_keeps_refinements (ev : Event) (h : Hook) :
  supplies_refinements ev = false →
  refinements (state (handle ev h)) = refinements (state h).
Proof.
  destruct ev; simpl; intros Hno; unfold_handlers;
    repeat case_match; simpl in *; rewrite ?state_abort_current;
    simplify_eq; try done.
Qed.

Lemma run_keeps_refinements (evs : list Event) (h : Hook) :
  forallb (λ ev, negb (supplies_refinements ev)) evs = true →
  refinements (state (run evs h)) = refinements (state h).
Proof.
  revert h. induction evs as [|ev evs IH]; intros h Hall; [done|].
  simpl in Hall. apply andb_true_iff in Hall as [Hev Hall].
  apply negb_true_iff in Hev.
  simpl. rewrite (IH _ Hall). by apply (handle_keeps_refinements ev h).
Qed.

(** C10. A fresh session holds the welcome message of the assistant (id
    [m-welcome]) and nothing else, no products, the three default chips,
    is not loading and has no upload id; and the three default chips stay
    as long as no settled response supplies refinements. *)
Theorem fresh_session_and_default_chips (evs : list Event) :
  forallb (λ ev, negb (supplies_refinements ev)) evs = true →
  state mount
  = {| messages :=
         [ {| id := "m-welcome"; role := assistant;
              content :=
                "Hi! I can help you find products. What are you looking for today?" |} ];
       products := [];
       refinements := ["recommendations"; "image search"; "product details"];
       isLoading := false;
       lastUploadId := None |}
  ∧ refinements (state (run evs mount))
    = ["recommendations"; "image search"; "product details"].
Proof.
  intros Hall. split; [done|]. by rewrite (run_keeps_refinements evs mount).
Qed.

(** A typed turn answered without refinements, then a failed upload. *)
Lemma fresh_session_and_default_chips_witness :
  let answered : Response AgentChatResponse :=
    {| res_status := 200; res_text := Fulfilled "";
       res_json := Fulfilled {| intent := chitchat; answer := "Hello";
                                Api.products := Present [];
                                Api.refinements := Absent |} |} in
  let evs :=
    [ Call_sendText "u1" "hi";
      Chat_settles 0 "u2" (Fulfilled answered);
      Call_uploadAndSearch {| file_name := "a.png"; file_bytes := [] |};
      Upload_settles 1 "u3" (Rejected (new_Error "Failed to fetch")) ] in
  length (messages (state (run evs mount))) = 4
  ∧ refinements (state (run evs mount))
    = ["recommendations"; "image search"; "product details"].
Proof.
  intros answered evs. split; [reflexivity|].
  apply (fresh_session_and_default_chips evs). reflexivity.
Defined.

(** *** Suspended turns and their controllers *)

Lemma take_frame_found want ac fs f rest :
  take_frame want ac fs = Some (f, rest) →
  want f = true ∧ frame_ac f = ac
  ∧ ∀ P : Frame → Prop, Forall P fs → P f ∧ Forall P rest.
Proof.
  revert rest. induction fs as [|g fs IH]; intros rest; simpl; [done|].
  destruct (want g && bool_decide (frame_ac g = ac)) eqn:Hg.
  - intros [= <- <-]. apply andb_true_iff in Hg as [Hw Hac].
    apply bool_decide_eq_true in Hac.
    split_and!; [done..|]. intros P HP. by inversion HP.
  - destruct (take_frame want ac fs) as [[f' rest']|] eqn:Hfs; [|done].
    intros [= -> <-]. destruct (IH rest' eq_refl) as (Hw & Hac & HP).
    split_and!; [done..|]. intros P HPg. inversion HPg as [|?? Hg' Hfs']; subst.
    destruct (HP P Hfs') as [? ?]. by split; [|constructor].
Qed.

(** The frame of the newest controller is found behind the older ones. *)
Lemma take_frame_newest want n fs f :
  Forall (λ g, frame_ac g < n) fs →
  want f = true → frame_ac f = n →
  take_frame want n (fs ++ [f]) = Some (f, fs).
Proof.
  intros Hfs Hw Hac. induction Hfs as [|g fs Hg Hfs IH]; simpl.
  - by rewrite Hw, Hac, bool_decide_eq_true_2.
  - rewrite IH. rewrite (bool_decide_eq_false_2 (frame_ac g = n)) by lia.
    by rewrite andb_false_r.
Qed.

Lemma frames_known_weaken (fs : list Frame) (n m : nat) :
  n ≤ m →
  Forall (λ f, frame_ac f < n) fs → Forall (λ f, frame_ac f < m) fs.
Proof.
  intros Hnm Hfs. eapply Forall_impl; [exact Hfs|].
  intros f Hf. simpl in Hf. lia.
Qed.

Lemma handle_frames_known (ev : Event) (h : Hook) :
  frames_known h → frames_known (handle ev h).
Proof.
  unfold frames_known. intros Hh.
  destruct ev; simpl; unfold_handlers;
    repeat match goal with
      | |- context [take_frame ?w ?a ?fs] =>
          let E := fresh "E" in
          destruct (take_frame w a fs) as [[[] ?]|] eqn:E;
          [apply take_frame_found in E as (? & ? & E);
           destruct (E _ Hh) as [? ?]..|]
      | |- context [http ?x] => destruct (http x)
      end;
    simpl in *; rewrite ?suspended_abort_current; try done;
    rewrite ?Forall_app, ?Forall_singleton; repeat split;
    try (eapply Forall_impl; [eassumption|]; intros ? ?);
    simpl in *;
    rewrite ?length_app, ?length_controllers_abort_current; simpl; lia.
Qed.

Lemma run_frames_known (evs : list Event) (h : Hook) :
  frames_known h → frames_known (run evs h).
Proof.
  revert h. induction evs as [|ev evs IH]; intros h Hh; [done|].
  simpl. apply IH. by apply (handle_frames_known ev h).
Qed.

Lemma reachable_frames_known (evs : list Event) :
  frames_known (run evs mount).
Proof. apply run_frames_known. constructor. Qed.

(** ** The upload coordinator *)

Lemma or_else_decide (s d : string) :
  or_else s d = if decide (s = "") then d else s.
Proof. by destruct s. Qed.

Section Upload.
Variables (h : Hook) (file : File).
Hypothesis known : frames_known h.

Local Abbreviation ac := (length (controllers h)).
Local Abbreviation h1 := (step h (Call_uploadAndSearch file)).

Lemma upload_dispatch_suspended :
  suspended h1
  = suspended h
    ++ [ Upload_awaits_upload ac
           (ApiClient.uploadImage_request file (Some ac))
           (env (uploadAndSearch_cb (cells h))) ].
Proof.
  unfold step, handle, uploadAndSearch. simpl.
  by rewrite suspended_abort_current, length_controllers_abort_current.
Qed.

Lemma upload_dispatch_state : state h1 = with_isLoading true (state h).
Proof. apply state_uploadAndSearch. Qed.

(** The upload's settlement resumes the turn just dispatched. *)
Lemma upload_settles_resumes uuid fetched :
  step h1 (Upload_settles ac uuid fetched)
  = rerender
      (uploadAndSearch_resume_upload ac (env (uploadAndSearch_cb (cells h)))
         uuid (http fetched) (with_suspended (suspended h) h1)).
Proof.
  unfold step at 1, handle at 1. rewrite upload_dispatch_suspended.
  by rewrite take_frame_newest.
Qed.

(** After a successful upload the chained chat request is the turn's
    only frame, and its settlement resumes it. *)
Lemma chained_chat_settles_resumes uuid1 uuid2 fetchedUp up fetchedChat :
  http fetchedUp = Fulfilled up →
  step (step h1 (Upload_settles ac uuid1 fetchedUp))
    (Chat_settles ac uuid2 fetchedChat)
  = rerender
      (uploadAndSearch_resume_chat uuid2 (http fetchedChat)
         (with_suspended (suspended h)
            (step h1 (Upload_settles ac uuid1 fetchedUp)))).
Proof.
  intros Hup. rewrite !upload_settles_resumes, Hup.
  unfold step at 1, handle at 1. simpl.
  by rewrite take_frame_newest.
Qed.

End Upload.

(** C8. In [uploadAndSearch], from any state the session can reach: when
    the upload fails, the upload id of the session is what it was, no user
    marker is appended, no chat request is issued (the suspended turns and
    their requests are those from before the call), and the failure shows
    as one assistant message whose text is the failure's, or
    ["Upload failed"] when the failure has none; when the upload succeeds
    and the chained chat call fails, the session keeps the new upload id
    and the marker message [image:<uploadId>], followed by the assistant
    message of the failure. *)
Theorem upload_failure_short_circuits_chat_failure_keeps_upload
    (evs : list Event) (file : File) (uuid1 uuid2 : string)
    (failedUp okUp : Settled (Response UploadResponse))
    (failedChat : Settled (Response AgentChatResponse))
    (errUp errChat : Error) (up : UploadResponse) :
  http failedUp = Rejected errUp →
  http okUp = Fulfilled up →
  http failedChat = Rejected errChat →
  let h := run evs mount in
  let ac := length (controllers h) in
  let h1 := step h (Call_uploadAndSearch file) in
  let hF := step h1 (Upload_settles ac uuid1 failedUp) in
  let hC := step (step h1 (Upload_settles ac uuid1 okUp))
              (Chat_settles ac uuid2 failedChat) in
  (lastUploadId (state hF) = lastUploadId (state h)
   ∧ messages (state hF)
     = messages (state h)
       ++ [ {| id := uuid1; role := assistant;
               content := if decide (message errUp = "") then "Upload failed"
                          else message errUp |} ]
   ∧ suspended hF = suspended h
   ∧ outbound_chat hF = outbound_chat h)
  ∧ (lastUploadId (state hC) = Some (upload_id up)
     ∧ messages (state hC)
       = messages (state h)
         ++ [ {| id := uuid1; role := user;
                 content := "image:" +:+ upload_id up |};
              {| id := uuid2; role := assistant;
                 content := or_else (message errChat) "Upload failed" |} ]).
Proof.
  intros HF HU HC. cbv zeta.
  pose proof (reachable_frames_known evs) as Hk.
  rewrite (chained_chat_settles_resumes _ file Hk uuid1 uuid2 okUp up _ HU).
  rewrite !(upload_settles_resumes _ file Hk), HF, HU, HC.
  unfold outbound_chat. simpl.
  rewrite !state_abort_current, or_else_decide. simpl.
  by rewrite <- app_assoc.
Qed.

(** An upload that fails without a text; an upload that succeeds and is
    followed by a chat call answered with a 502. *)
Lemma upload_failure_short_circuits_chat_failure_keeps_upload_witness :
  let file := {| file_name := "shoe.png"; file_bytes := [] |} in
  let failedUp : Settled (Response UploadResponse) :=
    Rejected {| name := "TypeError"; message := "" |} in
  let okUp : Settled (Response UploadResponse) :=
    Fulfilled {| res_status := 200; res_text := Fulfilled "";
                 res_json := Fulfilled {| upload_id := "abc123";
                                          upload_url := "/uploads/abc123" |} |} in
  let failedChat : Settled (Response AgentChatResponse) :=
    Fulfilled {| res_status := 502; res_text := Fulfilled "bad gateway";
                 res_json := Rejected (new_Error "Unexpected token") |} in
  let h1 := step mount (Call_uploadAndSearch file) in
  let hF := step h1 (Upload_settles 0 "u1" failedUp) in
  let hC := step (step h1 (Upload_settles 0 "u1" okUp))
              (Chat_settles 0 "u2" failedChat) in
  (lastUploadId (state hF) = None
   ∧ messages (state hF)
     = messages initialState
       ++ [ {| id := "u1"; role := assistant; content := "Upload failed" |} ]
   ∧ suspended hF = []
   ∧ outbound_chat hF = [])
  ∧ (lastUploadId (state hC) = Some "abc123"
     ∧ messages (state hC)
       = messages initialState
         ++ [ {| id := "u1"; role := user; content := "image:abc123" |};
              {| id := "u2"; role := assistant; content := "bad gateway" |} ]).
Proof.
  intros file failedUp okUp failedChat h1 hF hC.
  exact (upload_failure_short_circuits_chat_failure_keeps_upload
           [] file "u1" "u2" failedUp okUp failedChat
           {| name := "TypeError"; message := "" |}
           (new_Error "bad gateway")
           {| upload_id := "abc123"; upload_url := "/uploads/abc123" |}
           eq_refl eq_refl eq_refl).
Defined.

(** ** The context window *)

Lemma context_of_trailing (st : AgentState) :
  context_of st = trailing_context (messages st).
Proof. reflexivity. Qed.

Lemma trailing_context_length (msgs : list UiMessage) :
  length (trailing_context msgs) = length msgs `min` 10.
Proof. unfold trailing_context. rewrite length_fmap, length_drop. lia. Qed.

Lemma trailing_context_long (msgs : list UiMessage) :
  10 < length msgs → length (trailing_context msgs) = 10.
Proof. intros Hlong. rewrite trailing_context_length. lia. Qed.

(** Every typed turn is sent with the window of the initial state: the
    [state] that [sendText] reads is the one of the first render. *)
Lemma sendText_context_is_initial_window (evs : list Event) (uuid text : string) :
  outbound_chat (step (run evs mount) (Call_sendText uuid text))
  = outbound_chat (run evs mount)
    ++ [ {| req_message := text;
            req_context :=
              Present (trailing_context (messages initialState)) |} ].
Proof.
  unfold step. change (outbound_chat (rerender ?x)) with (outbound_chat x).
  unfold handle. rewrite outbound_chat_sendText.
  by rewrite sendText_closure_is_first_render.
Qed.

(** C2. The second typed turn of a session: the first turn ["a"] has been
    answered (["x"]) when ["b"] is sent.  The request of ["b"] carries the
    window of the initial state, the welcome message alone, while the
    trailing window of the session's messages holds three entries before
    the dispatch and four once the user message is appended. *)
Theorem second_turn_context_is_initial_window :
  let answered : Response AgentChatResponse :=
    {| res_status := 200; res_text := Fulfilled "";
       res_json := Fulfilled {| intent := chitchat; answer := "x";
                                Api.products := Absent;
                                Api.refinements := Absent |} |} in
  let welcome :=
    {| ce_role := assistant;
       ce_content :=
         "Hi! I can help you find products. What are you looking for today?" |} in
  let before :=
    run [Call_sendText "u1" "a"; Chat_settles 0 "u2" (Fulfilled answered)]
      mount in
  let after := step before (Call_sendText "u3" "b") in
  outbound_chat after
  = [ {| req_message := "b"; req_context := Present [welcome] |} ]
  ∧ trailing_context (messages (state before))
    = [ welcome; {| ce_role := user; ce_content := "a" |};
        {| ce_role := assistant; ce_content := "x" |} ]
  ∧ trailing_context (messages (state after))
    = [ welcome; {| ce_role := user; ce_content := "a" |};
        {| ce_role := assistant; ce_content := "x" |};
        {| ce_role := user; ce_content := "b" |} ].
Proof. vm_compute. repeat split; reflexivity. Qed.

(** ** Single flight *)

(** A chat turn that settles appends its assistant message and clears
    [isLoading] whether or not its controller has been aborted: nothing in
    the continuation looks at the signal. *)
Lemma chat_settlement_ignores_abort (h : Hook) (ac : nat) (uuid : string)
    (fetched : Settled (Response AgentChatResponse)) (rq : Request)
    (rest : list Frame) :
  take_frame awaits_chat ac (suspended h)
  = Some (SendText_awaits_chat ac rq, rest) →
  let h' := step h (Chat_settles ac uuid fetched) in
  messages (state h')
  = messages (state h)
    ++ [ {| id := uuid; role := assistant;
            content := match http fetched with
                       | Fulfilled resp => answer resp
                       | Rejected err =>
                           or_else (message err) "Something went wrong"
                       end |} ]
  ∧ isLoading (state h') = false.
Proof.
  intros Hf. simpl. rewrite Hf. unfold sendText_resume.
  by rewrite messages_chat_settled, isLoading_chat_settled.
Qed.

(** C1. Turn ["a"] is superseded by turn ["b"] (its controller is aborted
    by the dispatch of ["b"]), or cancelled by [cancel()]; its [fetch] then
    rejects with the abort error.  In both runs the settlement of ["a"]
    appends an assistant message carrying the text of the abort error. *)
Theorem superseded_turn_settlement_appends_message :
  let abortError :=
    {| name := "AbortError"; message := "signal is aborted without reason" |} in
  let stray :=
    {| id := "u3"; role := assistant;
       content := "signal is aborted without reason" |} in
  let superseded := run [Call_sendText "u1" "a"; Call_sendText "u2" "b"] mount in
  let cancelled := run [Call_sendText "u1" "a"; Call_cancel] mount in
  (aborted superseded 0 = true
   ∧ messages (state (step superseded (Chat_settles 0 "u3" (Rejected abortError))))
     = messages (state superseded) ++ [stray])
  ∧ (aborted cancelled 0 = true
     ∧ messages (state (step cancelled (Chat_settles 0 "u3" (Rejected abortError))))
       = messages (state cancelled) ++ [stray]).
Proof. vm_compute. repeat split; reflexivity. Qed.

(** C3. Turn ["a"] is superseded by turn ["b"]; when ["a"] settles (its
    [fetch] rejects with the abort error) [isLoading] becomes false
    although the request of ["b"] is still in flight. *)
Theorem superseded_turn_settlement_clears_isLoading :
  let abortError :=
    {| name := "AbortError"; message := "signal is aborted without reason" |} in
  let before := run [Call_sendText "u1" "a"; Call_sendText "u2" "b"] mount in
  let after := step before (Chat_settles 0 "u3" (Rejected abortError)) in
  (isLoading (state before) = true ∧ length (in_flight before) = 1)
  ∧ (isLoading (state after) = false
     ∧ frame_ac <$> in_flight after = [1]
     ∧ frame_ac <$> suspended after = [1]).
Proof. vm_compute. repeat split; reflexivity. Qed.

(** ** Two complete turns *)

(** A typed turn answered with two products and one refinement. *)
Example text_turn :
  let card i :=
    {| pc_id := i; pc_title := Absent; pc_brand := Absent;
       pc_image_url := Absent; pc_price_cents := Absent; pc_currency := None;
       pc_in_stock := None; pc_url := Absent; pc_badges := Absent |} in
  let answered : Response AgentChatResponse :=
    {| res_status := 200; res_text := Fulfilled "";
       res_json :=
         Fulfilled {| intent := text_recommendation;
                      answer := "Here are some picks";
                      Api.products := Present [card "a"; card "b"];
                      Api.refinements := Present ["under $50"] |} |} in
  let h := run [ Call_sendText "u1" "running shoes under $100";
                 Chat_settles 0 "u2" (Fulfilled answered) ] mount in
  products (state h) = [card "a"; card "b"]
  ∧ refinements (state h) = ["under $50"]
  ∧ isLoading (state h) = false
  ∧ suspended h = [].
Proof. vm_compute. repeat split; reflexivity. Qed.

(** An upload followed by the answer to the chained chat turn: two new
    messages, the marker of the user and the answer of the assistant. *)
Example upload_then_search :
  let card i :=
    {| pc_id := i; pc_title := Absent; pc_brand := Absent;
       pc_image_url := Absent; pc_price_cents := Absent; pc_currency := None;
       pc_in_stock := None; pc_url := Absent; pc_badges := Absent |} in
  let uploaded : Response UploadResponse :=
    {| res_status := 200; res_text := Fulfilled "";
       res_json := Fulfilled {| upload_id := "abc123";
                                upload_url := "/uploads/abc123" |} |} in
  let answered : Response AgentChatResponse :=
    {| res_status := 200; res_text := Fulfilled "";
       res_json :=
         Fulfilled {| intent := image_search;
                      answer := "Found similar items";
                      Api.products := Present [card "p1"];
                      Api.refinements := Absent |} |} in
  let h := run [ Call_uploadAndSearch {| file_name := "shoe.png"; file_bytes := [] |};
                 Upload_settles 0 "u1" (Fulfilled uploaded);
                 Chat_settles 0 "u2" (Fulfilled answered) ] mount in
  messages (state h)
  = messages initialState
    ++ [ {| id := "u1"; role := user; content := "image:abc123" |};
         {| id := "u2"; role := assistant; content := "Found similar items" |} ]
  ∧ products (state h) = [card "p1"]
  ∧ lastUploadId (state h) = Some "abc123"
  ∧ isLoading (state h) = false.
Proof. vm_compute. repeat split; reflexivity. Qed.

(** ** Signals: which turn is live *)

Lemma take_frame_perm want ac fs f rest :
  take_frame want ac fs = Some (f, rest) → fs ≡ₚ f :: rest.
Proof.
  revert rest. induction fs as [|g fs IH]; intros rest; simpl; [done|].
  destruct (want g && bool_decide (frame_ac g = ac)).
  - by intros [= <- <-].
  - destruct (take_frame want ac fs) as [[f' rest']|]; [|done].
    intros [= -> <-]. rewrite (IH rest' eq_refl). apply Permutation_swap.
Qed.

Lemma controllers_abort_current (h : Hook) :
  controllers (abort_current h)
  = match abortRef h with
    | Some a => <[a := true]> (controllers h)
    | None => controllers h
    end.
Proof. unfold abort_current. by destruct (abortRef h). Qed.

Lemma abortRef_abort_current (h : Hook) :
  abortRef (abort_current h) = abortRef h.
Proof. unfold abort_current. by destruct (abortRef h) eqn:E. Qed.

(** Aborting the current controller leaves no live one. *)
Lemma abort_kills_live (cs : list bool) (r : option nat) (i : nat) :
  (∀ j, cs !! j = Some false ↔ r = Some j) →
  match r with Some a => <[a := true]> cs | None => cs end !! i ≠ Some false.
Proof.
  intros Hlive. destruct r as [a|]; simpl.
  - destruct (decide (a = i)) as [->|Hne].
    + assert (i < length cs) as Hlt.
      { apply (lookup_lt_Some cs i false). by apply Hlive. }
      by rewrite list_lookup_insert_eq.
    + rewrite list_lookup_insert_ne by done.
      intros Hi. apply Hlive in Hi. congruence.
  - intros Hi. by apply Hlive in Hi.
Qed.

(** After a dispatch ([abort], [new AbortController], store it) the new
    controller is the only live one. *)
Lemma dispatch_live (cs : list bool) (r : option nat) (i : nat) :
  (∀ j, cs !! j = Some false ↔ r = Some j) →
  (match r with Some a => <[a := true]> cs | None => cs end ++ [false]) !! i
    = Some false
  ↔ Some (length cs) = Some i.
Proof.
  intros Hlive.
  set (cs' := match r with Some a => <[a := true]> cs | None => cs end).
  assert (length cs' = length cs) as Hlen.
  { subst cs'. destruct r; [apply length_insert|done]. }
  destruct (decide (i < length cs)) as [Hlt|Hge].
  - rewrite lookup_app_l by lia. split.
    + intros Hi. by destruct (abort_kills_live cs r i Hlive).
    + intros [= <-]. lia.
  - destruct (decide (i = length cs)) as [->|Hne].
    + rewrite lookup_app_r by lia. rewrite Hlen, Nat.sub_diag. done.
    + rewrite lookup_ge_None_2 by (rewrite length_app; simpl; lia).
      split; [done|]. intros [= <-]. lia.
Qed.

Lemma handle_one_live_signal (ev : Event) (h : Hook) :
  one_live_signal h → one_live_signal (handle ev h).
Proof.
  unfold one_live_signal. intros Hlive i.
  destruct ev; simpl; unfold_handlers;
    repeat match goal with
      | |- context [take_frame ?w ?a ?fs] =>
          destruct (take_frame w a fs) as [[[] ?]|]
      | |- context [http ?x] => destruct (http x)
      end;
    simpl; rewrite ?length_controllers_abort_current,
      ?controllers_abort_current, ?abortRef_abort_current;
    simpl; try apply Hlive; try (by apply dispatch_live).
  split; [|done]. intros Hi. by destruct (abort_kills_live _ _ i Hlive).
Qed.

Lemma handle_frames_distinct (ev : Event) (h : Hook) :
  frames_known h → frames_distinct h → frames_distinct (handle ev h).
Proof.
  unfold frames_known, frames_distinct. intros Hk Hd.
  assert (NoDup ((frame_ac <$> suspended h) ++ [length (controllers h)]))
    as Hfresh.
  { apply NoDup_app. split_and!; [done| |apply NoDup_singleton].
    intros x [f [-> Hf]]%list_elem_of_fmap [= Hx]%list_elem_of_singleton.
    rewrite Forall_forall in Hk. specialize (Hk f Hf). lia. }
  destruct ev; simpl; unfold_handlers;
    repeat match goal with
      | |- context [take_frame ?w ?a ?fs] =>
          let E := fresh "E" in
          destruct (take_frame w a fs) as [[[] ?]|] eqn:E;
          [pose proof (take_frame_perm _ _ _ _ _ E) as Hperm;
           apply take_frame_found in E as (? & ? & _);
           rewrite Hperm in Hd; simpl in Hd;
           apply NoDup_cons in Hd as [? ?]..|]
      | |- context [http ?x] => destruct (http x)
      end;
    simpl in *; rewrite ?suspended_abort_current, ?fmap_app,
      ?length_controllers_abort_current; simpl; try done;
    try exact Hfresh.
  subst. apply NoDup_app. split_and!; [done| |apply NoDup_singleton].
  intros x Hx ->%list_elem_of_singleton. done.
Qed.

Lemma run_signals (evs : list Event) (h : Hook) :
  frames_known h → frames_distinct h → one_live_signal h →
  frames_known (run evs h) ∧ frames_distinct (run evs h)
  ∧ one_live_signal (run evs h).
Proof.
  revert h. induction evs as [|ev evs IH]; intros h Hk Hd Hl; [done|].
  simpl. apply IH.
  - by apply (handle_frames_known ev h).
  - by apply (handle_frames_distinct ev h).
  - by apply (handle_one_live_signal ev h).
Qed.

Lemma reachable_signals (evs : list Event) :
  frames_known (run evs mount) ∧ frames_distinct (run evs mount)
  ∧ one_live_signal (run evs mount).
Proof.
  apply run_signals; [constructor|constructor|].
  intros i. simpl. by rewrite lookup_nil.
Qed.

(** In a hook that keeps the invariants, the turns in flight are those of
    the current controller. *)
Lemma in_flight_current (h : Hook) (f : Frame) :
  frames_known h → one_live_signal h →
  f ∈ in_flight h → abortRef h = Some (frame_ac f).
Proof.
  intros Hk Hl [Hf Hin]%list_elem_of_filter.
  unfold frames_known in Hk. rewrite Forall_forall in Hk. specialize (Hk f Hin).
  apply Hl. unfold aborted in Hf.
  destruct (controllers h !! frame_ac f) as [b|] eqn:Hb.
  - simpl in Hf. by subst.
  - apply lookup_ge_None in Hb. lia.
Qed.

Lemma in_flight_at_most_one (h : Hook) :
  frames_known h → frames_distinct h → one_live_signal h →
  length (in_flight h) ≤ 1.
Proof.
  intros Hk Hd Hl.
  assert (NoDup (frame_ac <$> in_flight h)) as Hnd.
  { apply (sublist_NoDup _ _ Hd). unfold in_flight.
    apply fmap_sublist, sublist_filter. }
  pose proof (in_flight_current h) as Hcur.
  destruct (in_flight h) as [|f [|g fs]]; simpl; [lia..|].
  exfalso.
  assert (frame_ac f = frame_ac g) as Heq.
  { pose proof (Hcur f Hk Hl ltac:(by constructor)).
    pose proof (Hcur g Hk Hl ltac:(by do 2 constructor)). congruence. }
  simpl in Hnd. apply NoDup_cons in Hnd as [Hnot _].
  apply Hnot. rewrite Heq. by constructor.
Qed.

(** X1. In every state the session can reach at most one suspended turn
    has a signal that is not aborted, and that turn belongs to the
    controller [abortRef] holds. *)
Theorem at_most_one_live_turn (evs : list Event) :
  let h := run evs mount in
  length (in_flight h) ≤ 1
  ∧ Forall (λ f, abortRef h = Some (frame_ac f)) (in_flight h).
Proof.
  intros h. destruct (reachable_signals evs) as (Hk & Hd & Hl). fold h in Hk, Hd, Hl.
  split; [by apply in_flight_at_most_one|].
  apply Forall_forall. intros f Hf. by apply in_flight_current.
Qed.

Lemma run_snoc (evs : list Event) (ev : Event) (h : Hook) :
  run (evs ++ [ev]) h = step (run evs h) ev.
Proof. unfold run. by rewrite foldl_app. Qed.

(** X2. [cancel()] called in any state the session can reach leaves no turn
    in flight and clears [abortRef], without touching the session state or
    the suspended turns; a second [cancel()] changes nothing. *)
Theorem cancel_leaves_nothing_in_flight (evs : list Event) :
  let h := run evs mount in
  in_flight (step h Call_cancel) = []
  ∧ abortRef (step h Call_cancel) = None
  ∧ state (step h Call_cancel) = state h
  ∧ suspended (step h Call_cancel) = suspended h
  ∧ cancel (cancel h) = cancel h.
Proof.
  intros h. split_and!.
  - destruct (reachable_signals (evs ++ [Call_cancel])) as (Hk & _ & Hl).
    rewrite run_snoc in Hk, Hl. fold h in Hk, Hl.
    destruct (in_flight (step h Call_cancel)) as [|f fs] eqn:Hfl; [done|].
    assert (f ∈ in_flight (step h Call_cancel)) as Hf
      by (rewrite Hfl; constructor).
    by apply in_flight_current in Hf.
  - done.
  - simpl. apply state_abort_current.
  - simpl. apply suspended_abort_current.
  - reflexivity.
Qed.

(** *** A typed turn from dispatch to settlement *)

Section TypedTurn.
Variables (h : Hook) (uuid1 text : string).
Hypothesis known : frames_known h.

Local Abbreviation ac := (length (controllers h)).
Local Abbreviation h1 := (step h (Call_sendText uuid1 text)).

Lemma sendText_dispatch_suspended :
  suspended h1
  = suspended h
    ++ [ SendText_awaits_chat ac
           (ApiClient.chat_request
              {| req_message := text;
                 req_context :=
                   Present (context_of (env (sendText_cb (cells h)))) |}
              (Some ac)) ].
Proof.
  unfold step, handle, sendText. simpl.
  by rewrite suspended_abort_current, length_controllers_abort_current.
Qed.

Lemma sendText_settles_resumes uuid2 fetched :
  step h1 (Chat_settles ac uuid2 fetched)
  = rerender
      (sendText_resume uuid2 (http fetched)
         (with_suspended (suspended h) h1)).
Proof.
  unfold step at 1, handle at 1. rewrite sendText_dispatch_suspended.
  by rewrite take_frame_newest.
Qed.

End TypedTurn.

(** X3. A typed turn that is dispatched in a reachable state and settles
    next adds exactly two messages, the user's text and one assistant
    message (the answer; on failure the error text, or ["Something went
    wrong"] when the error has none), ends with [isLoading] false and
    the suspended turns as before, and keeps the upload id; when the call
    fails, products and refinements stay as they were. *)
Theorem typed_turn_from_dispatch_to_settlement
    (evs : list Event) (uuid1 uuid2 text : string)
    (fetched : Settled (Response AgentChatResponse)) :
  let h := run evs mount in
  let h' := run [ Call_sendText uuid1 text;
                  Chat_settles (length (controllers h)) uuid2 fetched ] h in
  messages (state h')
  = messages (state h)
    ++ [ {| id := uuid1; role := user; content := text |};
         {| id := uuid2; role := assistant;
            content := match http fetched with
                       | Fulfilled resp => answer resp
                       | Rejected err =>
                           or_else (message err) "Something went wrong"
                       end |} ]
  ∧ isLoading (state h') = false
  ∧ suspended h' = suspended h
  ∧ lastUploadId (state h') = lastUploadId (state h)
  ∧ products (state h')
    = match http fetched with
      | Fulfilled resp => nullish (Api.products resp) []
      | Rejected _ => products (state h)
      end
  ∧ refinements (state h')
    = match http fetched with
      | Fulfilled resp =>
          nullish (Api.refinements resp) (refinements (state h))
      | Rejected _ => refinements (state h)
      end.
Proof.
  cbv zeta. pose proof (reachable_frames_known evs) as Hk.
  change (run [?a; ?b] ?x) with (step (step x a) b).
  rewrite (sendText_settles_resumes _ uuid1 text Hk).
  destruct (http fetched) as [resp|err]; simpl;
    rewrite !state_abort_current; simpl; rewrite <- ?app_assoc; done.
Qed.

(** *** Who writes what *)

(** X4. Only a chat settlement that fulfils writes [products] and
    [refinements]: every other event (a call, a failed chat settlement, any
    upload settlement) leaves both as they were, from any hook. *)
Theorem only_fulfilled_chat_writes_results (h : Hook) (ev : Event) :
  chat_fulfils ev = false →
  products (state (step h ev)) = products (state h)
  ∧ refinements (state (step h ev)) = refinements (state h).
Proof.
  destruct ev; simpl; intros Hno; unfold_handlers;
    repeat case_match; simpl in *; rewrite ?state_abort_current;
    simplify_eq; done.
Qed.

(** A chat call answered with a 500 while two products are shown. *)
Lemma only_fulfilled_chat_writes_results_witness :
  let p := {| pc_id := "p1"; pc_title := Absent; pc_brand := Absent;
              pc_image_url := Absent; pc_price_cents := Absent;
              pc_currency := None; pc_in_stock := None; pc_url := Absent;
              pc_badges := Absent |} in
  let shown : Response AgentChatResponse :=
    {| res_status := 200; res_text := Fulfilled "";
       res_json := Fulfilled {| intent := text_recommendation; answer := "ok";
                                Api.products := Present [p; p];
                                Api.refinements := Present ["cheaper"] |} |} in
  let failed : Response AgentChatResponse :=
    {| res_status := 500; res_text := Fulfilled "";
       res_json := Rejected (new_Error "Unexpected token") |} in
  let h := run [ Call_sendText "u1" "shoes"; Chat_settles 0 "u2" (Fulfilled shown);
                 Call_sendText "u3" "more" ] mount in
  let ev := Chat_settles 1 "u4" (Fulfilled failed) in
  length (messages (state (step h ev))) = 5
  ∧ products (state (step h ev)) = products (state h)
  ∧ refinements (state (step h ev)) = refinements (state h).
Proof.
  intros p shown failed h ev. split; [reflexivity|].
  exact (only_fulfilled_chat_writes_results h ev eq_refl).
Defined.

Lemma handle_keeps_upload_id (ev : Event) (h : Hook) :
  is_Some (lastUploadId (state h)) →
  is_Some (lastUploadId (state (handle ev h))).
Proof.
  destruct ev; simpl; intros Hsome; unfold_handlers;
    repeat case_match; simpl in *; rewrite ?state_abort_current;
    simplify_eq; done.
Qed.

(** X5. The upload id of the session is never unset: once some upload id
    is recorded, some upload id is recorded after any further events. *)
Theorem upload_id_is_never_unset (evs : list Event) (h : Hook) (id : string) :
  lastUploadId (state h) = Some id →
  is_Some (lastUploadId (state (run evs h))).
Proof.
  intros Hid. assert (is_Some (lastUploadId (state h))) as Hs by by eexists.
  clear Hid. revert h Hs.
  induction evs as [|ev evs IH]; intros h Hs; [done|].
  simpl. apply IH. by apply (handle_keeps_upload_id ev h).
Qed.

(** An upload succeeds, then a typed turn fails and [cancel()] is called. *)
Lemma upload_id_is_never_unset_witness :
  let uploaded : Response UploadResponse :=
    {| res_status := 200; res_text := Fulfilled "";
       res_json := Fulfilled {| upload_id := "abc123";
                                upload_url := "/uploads/abc123" |} |} in
  let h := run [ Call_uploadAndSearch {| file_name := "a.png"; file_bytes := [] |};
                 Upload_settles 0 "u1" (Fulfilled uploaded) ] mount in
  let evs := [ Call_sendText "u2" "hi";
               Chat_settles 1 "u3" (Rejected (new_Error "Failed to fetch"));
               Call_cancel ] in
  lastUploadId (state h) = Some "abc123"
  ∧ is_Some (lastUploadId (state (run evs h))).
Proof.
  intros uploaded h evs. split; [reflexivity|].
  exact (upload_id_is_never_unset evs h "abc123" eq_refl).
Defined.

(** X6. One event appends at most one message: after any event, from any
    hook, the messages are the ones before followed by none or one. *)
Theorem each_event_appends_at_most_one_message (h : Hook) (ev : Event) :
  ∃ k : list UiMessage,
    messages (state (step h ev)) = messages (state h) ++ k ∧ length k ≤ 1.
Proof.
  destruct ev; simpl; unfold_handlers;
    repeat case_match; simpl; rewrite ?state_abort_current; simpl;
    first [ exists []; split; [by rewrite app_nil_r | simpl; lia]
          | eexists [_]; split; [reflexivity | simpl; lia] ].
Qed.

(** X7. The functions the hook returns keep their identity: after any
    events the memo cells are those of the first render. *)
Theorem hook_functions_keep_identity (evs : list Event) :
  cells (run evs mount) = cells mount.
Proof. by apply cells_run. Qed.

(** *** The requests of the suspended turns *)

Lemma handle_frames_wired (ev : Event) (h : Hook) :
  cells h = render None 0 initialState →
  Forall frame_wired (suspended h) →
  Forall frame_wired (suspended (handle ev h)).
Proof.
  intros Hc Hw.
  destruct ev; simpl; unfold_handlers; rewrite ?Hc;
    repeat match goal with
      | |- context [take_frame ?w ?a ?fs] =>
          let E := fresh "E" in
          destruct (take_frame w a fs) as [[[] ?]|] eqn:E;
          [apply take_frame_found in E as (_ & _ & E);
           destruct (E _ Hw) as [? ?]..|]
      | |- context [http ?x] => destruct (http x)
      end;
    simpl in *; rewrite ?suspended_abort_current; try done;
    apply Forall_app; (split; [done|]); apply Forall_singleton; simpl;
    try (by eexists); try (by split; [|eexists]).
  destruct_and!. subst. by eexists.
Qed.

Lemma reachable_frames_wired (evs : list Event) :
  Forall frame_wired (suspended (run evs mount)).
Proof.
  assert (∀ h, cells h = render None 0 initialState →
               Forall frame_wired (suspended h) →
               Forall frame_wired (suspended (run evs h))) as Hgen.
  { induction evs as [|ev evs IH]; intros h Hc Hw; [done|].
    simpl. apply IH.
    - unfold step, rerender. simpl. rewrite cells_handle, Hc.
      apply render_keeps_first_cells.
    - by apply (handle_frames_wired ev h). }
  apply Hgen; [done|constructor].
Qed.

(** X8. Every chat request of a suspended turn, typed, tapped or chained to
    an upload, in any state the session can reach, carries the same
    context: the window of the initial state, that is the welcome message
    alone. *)
Theorem every_chat_request_carries_initial_window (evs : list Event) :
  Forall
    (λ b, req_context b
          = Present
              [ {| ce_role := assistant;
                   ce_content :=
                     "Hi! I can help you find products. What are you looking for today?" |} ])
    (outbound_chat (run evs mount)).
Proof.
  pose proof (reachable_frames_wired evs) as Hw.
  unfold outbound_chat. induction Hw as [|f fs Hf Hfs IH]; [constructor|].
  simpl. destruct f as [ac rq|ac rq seen|ac rq]; simpl in Hf.
  - destruct Hf as [text ->]. simpl. by constructor.
  - destruct Hf as [_ [file ->]]. simpl. exact IH.
  - destruct Hf as [uploadId ->]. simpl. by constructor.
Qed.

(** X9. The request of every suspended turn, in any state the session can
    reach, carries the signal of the controller its own invocation created
    and is a POST, to [/api/agent/chat] for a chat call and to
    [/api/uploads] for an upload. *)
Theorem every_request_carries_its_own_signal (evs : list Event) :
  Forall
    (λ f, rq_signal (frame_request f) = Some (frame_ac f)
          ∧ rq_method (frame_request f) = "POST"
          ∧ rq_url (frame_request f)
            = if awaits_chat f then "/api/agent/chat" else "/api/uploads")
    (suspended (run evs mount)).
Proof.
  eapply Forall_impl; [apply reachable_frames_wired|].
  intros [ac rq|ac rq seen|ac rq]; simpl.
  - by intros [text ->].
  - by intros [_ [file ->]].
  - by intros [uploadId ->].
Qed.

(** *** Loading and pending turns *)

Lemma handle_idle_not_loading (ev : Event) (h : Hook) :
  (suspended h = [] → isLoading (state h) = false) →
  suspended (handle ev h) = [] → isLoading (state (handle ev h)) = false.
Proof.
  intros Hidle.
  destruct ev; simpl; unfold_handlers;
    repeat match goal with
      | |- context [take_frame ?w ?a ?fs] =>
          destruct (take_frame w a fs) as [[[] ?]|]
      | |- context [http ?x] => destruct (http x)
      end;
    simpl; rewrite ?suspended_abort_current, ?state_abort_current; simpl;
    try done;
    try (by intros [_ [=]]%app_eq_nil).
Qed.

(** X10. In any state the session can reach, when no turn is suspended
    [isLoading] is false: the typing indicator cannot outlive the last
    pending turn. *)
Theorem idle_session_is_not_loading (evs : list Event) :
  suspended (run evs mount) = [] → isLoading (state (run evs mount)) = false.
Proof.
  assert (∀ h, (suspended h = [] → isLoading (state h) = false) →
               suspended (run evs h) = [] →
               isLoading (state (run evs h)) = false) as Hgen.
  { induction evs as [|ev evs IH]; intros h Hh; [done|].
    simpl. apply IH. apply (handle_idle_not_loading ev h Hh). }
  by apply Hgen.
Qed.

(** Two overlapping turns, both settled. *)
Lemma idle_session_is_not_loading_witness :
  let evs :=
    [ Call_sendText "u1" "a"; Call_sendText "u2" "b";
      Chat_settles 1 "u3" (Rejected (new_Error "Failed to fetch"));
      Chat_settles 0 "u4" (Rejected (new_Error "aborted")) ] in
  length (messages (state (run evs mount))) = 5
  ∧ isLoading (state (run evs mount)) = false.
Proof.
  intros evs. split; [reflexivity|].
  exact (idle_session_is_not_loading evs eq_refl).
Defined.

(** *** Failures with a status *)

Lemma surfaced_message_nonempty {T : Type} (res : Response T) :
  ∃ c s, surfaced_message res = String c s.
Proof.
  unfold surfaced_message.
  destruct (res_text res) as [[|c s]|e]; simpl; by eexists _, _.
Qed.



(** *** The product URL *)

(** X12. The URL [getProduct] requests always ends with
    [/products/<productId>]; in the browser nothing precedes it, whatever
    [API_BASE_URL] is; on the server an unset or empty [API_BASE_URL] gives
    the base [http://localhost:8000], and any other value is the base. *)
Theorem getProduct_url (API_BASE_URL : option string) (productId : string)
    (signal : option nat) (c : Ascii.ascii) (base : string) :
  rq_url (ApiClient.getProduct_request false API_BASE_URL productId signal)
  = "/products/" +:+ productId
  ∧ rq_url (ApiClient.getProduct_request true None productId signal)
    = "http://localhost:8000/products/" +:+ productId
  ∧ rq_url (ApiClient.getProduct_request true (Some "") productId signal)
    = "http://localhost:8000/products/" +:+ productId
  ∧ rq_url (ApiClient.getProduct_request true (Some (String c base))
              productId signal)
    = String c base +:+ "/products/" +:+ productId
  ∧ ∀ isServer, ∃ prefix,
      rq_url (ApiClient.getProduct_request isServer API_BASE_URL productId signal)
      = prefix +:+ "/products/" +:+ productId.
Proof.
  split_and!; try reflexivity.
  intros isServer. by eexists.
Qed.

(** ** The components *)

Import Stdlib.Strings.Ascii.

(** *** [trim] *)

Lemma trim_start_spaces (s : string) :
  all_chars is_space (trim_start s) = all_chars is_space s.
Proof.
  induction s as [|c s IH]; simpl; [done|].
  destruct (is_space c) eqn:Hc; simpl; [done|]. by rewrite Hc.
Qed.

Lemma trim_end_empty (s : string) :
  trim_end s = "" ↔ all_chars is_space s = true.
Proof.
  induction s as [|c s IH]; simpl; [done|].
  destruct (trim_end s) as [|d t].
  - destruct IH as [IH _]. rewrite (IH eq_refl), andb_true_r.
    by destruct (is_space c).
  - split; [done|]. intros [_ Hs]%andb_true_iff.
    destruct IH as [_ IH]. by specialize (IH Hs).
Qed.

Lemma trim_empty (s : string) :
  trim s = "" ↔ all_chars is_space s = true.
Proof. unfold trim. by rewrite trim_end_empty, trim_start_spaces. Qed.

Lemma trim_end_idem (s : string) : trim_end (trim_end s) = trim_end s.
Proof.
  induction s as [|c s IH]; simpl; [done|].
  destruct (trim_end s) as [|d t] eqn:Hs.
  - destruct (is_space c) eqn:Hc; simpl; [done|]. by rewrite Hc.
  - change (trim_end (String c (String d t)))
      with (match trim_end (String d t) with
            | EmptyString =>
                if is_space c then EmptyString else String c EmptyString
            | String d' t' => String c (String d' t')
            end).
    by rewrite IH.
Qed.

(** [trim_end] keeps the first character of what it does not erase. *)
Lemma trim_end_head (c : Ascii.ascii) (s : string) :
  is_space c = false → ∃ t, trim_end (String c s) = String c t.
Proof.
  intros Hc. simpl. destruct (trim_end s); rewrite ?Hc; by eexists.
Qed.

Lemma trim_start_head (s : string) :
  trim_start s = ""
  ∨ ∃ c t, trim_start s = String c t ∧ is_space c = false.
Proof.
  induction s as [|c s IH]; simpl; [by left|].
  destruct (is_space c) eqn:Hc; [done|]. right. by eexists _, _.
Qed.

Lemma trim_idem (s : string) : trim (trim s) = trim s.
Proof.
  unfold trim. destruct (trim_start_head s) as [->|(c & t & -> & Hc)]; [done|].
  destruct (trim_end_head c t Hc) as [t' Ht']. rewrite Ht'.
  simpl trim_start. rewrite Hc, <- Ht'. apply trim_end_idem.
Qed.

Lemma trim_end_no_space (s : string) :
  all_chars (λ c, negb (is_space c)) s = true → trim_end s = s.
Proof.
  induction s as [|c s IH]; simpl; [done|].
  intros [Hc Hs]%andb_true_iff. rewrite (IH Hs).
  apply negb_true_iff in Hc. destruct s; by rewrite ?Hc.
Qed.

Lemma is_id_char_not_space (c : Ascii.ascii) :
  is_id_char c = true → is_space c = false.
Proof. destruct c as [[] [] [] [] [] [] [] []]; by vm_compute. Qed.

Lemma id_chars_no_space (s : string) :
  all_chars is_id_char s = true →
  all_chars (λ c, negb (is_space c)) s = true.
Proof.
  induction s as [|c s IH]; simpl; [done|].
  intros [Hc Hs]%andb_true_iff.
  by rewrite (is_id_char_not_space c Hc), (IH Hs).
Qed.

(** *** The upload marker, written by the hook and read by [Message] *)

Lemma image_match_marker (c : Ascii.ascii) (t : string) :
  all_chars is_id_char (String c t) = true →
  image_match ("image:" +:+ String c t) = Some (String c t).
Proof.
  intros Hid. pose proof (id_chars_no_space _ Hid) as Hns.
  unfold image_match, trim.
  change (trim_start ("image:" +:+ String c t)) with ("image:" +:+ String c t).
  rewrite trim_end_no_space by (by simpl in *).
  simpl strip_prefix.
  simpl in Hid. apply andb_true_iff in Hid as [Hc Ht].
  simpl. by rewrite (is_id_char_not_space c Hc), Hc, Ht.
Qed.

(** X13. The marker message [uploadAndSearch] appends for an upload id made
    of one or more characters of [A-Za-z0-9_], [-] and [.] is rendered by
    [Message] as the image [/uploads/<uploadId>], on the user's side, in a
    bare bubble. *)
Theorem upload_marker_renders_as_image
    (ac : nat) (seen : AgentState) (uuid : string) (up : UploadResponse)
    (h : Hook) :
  upload_id up ≠ "" →
  all_chars is_id_char (upload_id up) = true →
  (λ m, Message (role m) (content m) false)
    <$> last (messages (state
                (uploadAndSearch_resume_upload ac seen uuid (Fulfilled up) h)))
  = Some {| justify_end := true; avatar := false; bare := true;
            body := UploadedImage ("/uploads/" +:+ upload_id up) |}.
Proof.
  intros Hne Hid. simpl. rewrite last_snoc. simpl.
  destruct (upload_id up) as [|c t]; [done|].
  unfold Message. by rewrite (image_match_marker c t Hid).
Qed.

Lemma upload_marker_renders_as_image_witness :
  (λ m, Message (role m) (content m) false)
    <$> last (messages (state
                (uploadAndSearch_resume_upload 0 initialState "u1"
                   (Fulfilled {| upload_id := "a1b2-c3.png";
                                 upload_url := "/uploads/a1b2-c3.png" |})
                   mount)))
  = Some {| justify_end := true; avatar := false; bare := true;
            body := UploadedImage "/uploads/a1b2-c3.png" |}.
Proof.
  apply (upload_marker_renders_as_image 0 initialState "u1"
           {| upload_id := "a1b2-c3.png"; upload_url := "/uploads/a1b2-c3.png" |}
           mount); [discriminate|reflexivity].
Defined.

Lemma image_match_sound (content id : string) :
  image_match content = Some id →
  id ≠ "" ∧ all_chars is_id_char id = true.
Proof.
  unfold image_match.
  destruct (strip_prefix "image:" (trim content)) as [rest|]; [|done].
  destruct (trim_start rest) as [|c t]; [done|].
  destruct (all_chars is_id_char (String c t)) eqn:Hid; [|done].
  by intros [= <-].
Qed.

(** X14. [Message] shows an image only for a user message that is not
    typing, and the source of the image is [/uploads/<id>] where [id] is
    the non-empty group the marker expression captured: only characters
    of [A-Za-z0-9_], [-] and [.], so no slash and no white space. *)
Theorem message_image_only_for_user_marker
    (r : Role) (content src : string) (typing : bool) :
  body (Message r content typing) = UploadedImage src →
  r = user
  ∧ ∃ id, image_match content = Some id
          ∧ src = "/uploads/" +:+ id
          ∧ id ≠ ""
          ∧ all_chars is_id_char id = true
          ∧ all_chars (λ c, negb (is_space c)
                            && negb (bool_decide (c = "/"%char))) id = true.
Proof.
  unfold Message. simpl.
  destruct r, typing, (image_match content) as [id|] eqn:Hm; simpl;
    try discriminate.
  all: intros [= <-]; split; [done|]; exists id;
    destruct (image_match_sound _ _ Hm) as [Hne Hid];
    split_and!; try done.
  all: clear -Hid; induction id as [|c t IH]; simpl in *; [done|];
    apply andb_true_iff in Hid as [Hc Ht]; rewrite (IH Ht), andb_true_r;
    rewrite (is_id_char_not_space c Hc); simpl;
    destruct c as [[] [] [] [] [] [] [] []]; by vm_compute in Hc |- *.
Qed.

Lemma message_image_only_for_user_marker_witness :
  user = user
  ∧ ∃ id, image_match "  image: photo_1.png " = Some id
          ∧ "/uploads/photo_1.png" = "/uploads/" +:+ id
          ∧ id ≠ ""
          ∧ all_chars is_id_char id = true
          ∧ all_chars (λ c, negb (is_space c)
                            && negb (bool_decide (c = "/"%char))) id = true.
Proof.
  exact (message_image_only_for_user_marker user "  image: photo_1.png "
           "/uploads/photo_1.png" false eq_refl).
Defined.

(** *** The form, the chips and the upload button of [AgentChat] *)

(** X15. Submitting the form does nothing when the input is empty or all
    white space; otherwise it clears the input and sends the trimmed text,
    which is non-empty and has no white space left to trim, as one user
    message. *)
Theorem submit_sends_trimmed_text (uuid : string) (a : AgentChat) :
  if all_chars is_space (input a)
  then onSubmit uuid a = a
  else
    onSubmit uuid a
    = {| hook := step (hook a) (Call_sendText uuid (trim (input a)));
         input := "" |}
    ∧ trim (input a) ≠ ""
    ∧ trim (trim (input a)) = trim (input a)
    ∧ messages (state (hook (onSubmit uuid a)))
      = messages (state (hook a))
        ++ [ {| id := uuid; role := user; content := trim (input a) |} ].
Proof.
  unfold onSubmit.
  destruct (all_chars is_space (input a)) eqn:Hsp.
  - apply trim_empty in Hsp. by rewrite Hsp.
  - assert (trim (input a) ≠ "") as Hne.
    { intros Ht%trim_empty. congruence. }
    pose proof (trim_idem (input a)) as Hidem.
    destruct (trim (input a)) as [|c t] eqn:Ht; [done|].
    split_and!; try done.
    simpl. by rewrite state_abort_current.
Qed.

(** X16. In any state the session can reach, tapping a chip whose label is
    non-empty and has no surrounding white space moves the session exactly
    as typing that label and submitting the form does; the tap keeps the
    input box and the submission clears it. *)
Theorem chip_tap_is_typed_submit
    (evs : list Event) (uuid q typed : string) :
  q ≠ "" → trim q = q →
  let a := {| hook := run evs mount; input := typed |} in
  hook (onChip uuid q a) = hook (onSubmit uuid (onInput q a))
  ∧ input (onChip uuid q a) = typed
  ∧ input (onSubmit uuid (onInput q a)) = "".
Proof.
  intros Hne Htrim a. unfold onSubmit, onInput, onChip. simpl.
  rewrite Htrim. destruct q as [|c t]; [done|]. simpl.
  split_and!; try done.
  unfold step, handle, refineWith.
  by rewrite (refineWith_closure_holds_sendText evs).
Qed.

Lemma chip_tap_is_typed_submit_witness :
  let a := {| hook := mount; input := "shoes" |} in
  hook (onChip "u1" "image search" a)
  = hook (onSubmit "u1" (onInput "image search" a))
  ∧ input (onChip "u1" "image search" a) = "shoes"
  ∧ input (onSubmit "u1" (onInput "image search" a)) = "".
Proof.
  intros a.
  apply (chip_tap_is_typed_submit [] "u1" "image search" "shoes");
    [discriminate|reflexivity].
Defined.

(** X17. A change of the file input uploads the first selected file and
    only that one: it suspends one upload turn for it under a new
    controller, sets [isLoading] and appends no message; with no file
    selected nothing changes. *)
Theorem only_first_file_is_uploaded
    (evs : list Event) (f : File) (fs : list File) (typed : string) :
  let a := {| hook := run evs mount; input := typed |} in
  let n := length (controllers (hook a)) in
  onFiles None a = a
  ∧ onFiles (Some []) a = a
  ∧ suspended (hook (onFiles (Some (f :: fs)) a))
    = suspended (hook a)
      ++ [ Upload_awaits_upload n
             (ApiClient.uploadImage_request f (Some n)) initialState ]
  ∧ abortRef (hook (onFiles (Some (f :: fs)) a)) = Some n
  ∧ messages (state (hook (onFiles (Some (f :: fs)) a)))
    = messages (state (hook a))
  ∧ isLoading (state (hook (onFiles (Some (f :: fs)) a))) = true.
Proof.
  intros a n. split_and!; try done.
  - subst a n. unfold onFiles. simpl hook.
    rewrite upload_dispatch_suspended.
    by rewrite uploadAndSearch_closure_is_first_render.
  - subst a n. simpl. by rewrite length_controllers_abort_current.
  - simpl. by rewrite state_abort_current.
  - simpl. by rewrite state_abort_current.
Qed.

(** *** The product page *)


(** *** An upload turn from dispatch to settlement *)

(** X19. An upload that is dispatched in a reachable state and succeeds,
    followed by the settlement of its chained chat call, records the upload
    id, adds exactly two messages, the marker [image:<uploadId>] of the
    user and one assistant message (the answer, or the error text, or
    ["Upload failed"] when the error has none), and ends with [isLoading]
    false and the suspended turns as before; the chat request it sent has
    the marker as its message. *)
Theorem upload_turn_from_dispatch_to_settlement
    (evs : list Event) (file : File) (uuid1 uuid2 : string)
    (fetchedUp : Settled (Response UploadResponse)) (up : UploadResponse)
    (fetchedChat : Settled (Response AgentChatResponse)) :
  http fetchedUp = Fulfilled up →
  let h := run evs mount in
  let ac := length (controllers h) in
  let sent := run [ Call_uploadAndSearch file;
                    Upload_settles ac uuid1 fetchedUp ] h in
  let h' := step sent (Chat_settles ac uuid2 fetchedChat) in
  outbound_chat sent
  = outbound_chat h
    ++ [ {| req_message := "image:" +:+ upload_id up;
            req_context := Present (context_of initialState) |} ]
  ∧ messages (state h')
    = messages (state h)
      ++ [ {| id := uuid1; role := user;
              content := "image:" +:+ upload_id up |};
           {| id := uuid2; role := assistant;
              content := match http fetchedChat with
                         | Fulfilled resp => answer resp
                         | Rejected err =>
                             or_else (message err) "Upload failed"
                         end |} ]
  ∧ lastUploadId (state h') = Some (upload_id up)
  ∧ isLoading (state h') = false
  ∧ suspended h' = suspended h.
Proof.
  intros HU. cbv zeta. pose proof (reachable_frames_known evs) as Hk.
  change (run [?a; ?b] ?x) with (step (step x a) b).
  rewrite (chained_chat_settles_resumes _ file Hk uuid1 uuid2 _ up _ HU).
  rewrite !(upload_settles_resumes _ file Hk), HU.
  rewrite (uploadAndSearch_closure_is_first_render evs).
  unfold outbound_chat.
  destruct (http fetchedChat) as [resp|err]; simpl;
    rewrite ?omap_app, !state_abort_current; simpl;
    rewrite <- ?app_assoc; done.
Qed.

Lemma upload_turn_from_dispatch_to_settlement_witness :
  let uploaded : Response UploadResponse :=
    {| res_status := 201; res_text := Fulfilled "";
       res_json := Fulfilled {| upload_id := "abc123";
                                upload_url := "/uploads/abc123" |} |} in
  let answered : Response AgentChatResponse :=
    {| res_status := 200; res_text := Fulfilled "";
       res_json := Fulfilled {| intent := image_search;
                                answer := "Found similar items";
                                Api.products := Absent;
                                Api.refinements := Absent |} |} in
  let sent := run [ Call_uploadAndSearch {| file_name := "a.png"; file_bytes := [] |};
                    Upload_settles 0 "u1" (Fulfilled uploaded) ] mount in
  let h' := step sent (Chat_settles 0 "u2" (Fulfilled answered)) in
  outbound_chat sent
  = [ {| req_message := "image:abc123";
         req_context := Present (context_of initialState) |} ]
  ∧ messages (state h')
    = messages initialState
      ++ [ {| id := "u1"; role := user; content := "image:abc123" |};
           {| id := "u2"; role := assistant;
              content := "Found similar items" |} ]
  ∧ lastUploadId (state h') = Some "abc123"
  ∧ isLoading (state h') = false
  ∧ suspended h' = [].
Proof.
  intros uploaded answered sent h'.
  exact (upload_turn_from_dispatch_to_settlement []
           {| file_name := "a.png"; file_bytes := [] |} "u1" "u2"
           (Fulfilled uploaded)
           {| upload_id := "abc123"; upload_url := "/uploads/abc123" |}
           (Fulfilled answered) eq_refl).
Defined.

(** *** Aborted controllers *)

Lemma handle_keeps_aborted (ev : Event) (h : Hook) (i : nat) :
  controllers h !! i = Some true →
  controllers (handle ev h) !! i = Some true.
Proof.
  intros Hi.
  assert (match abortRef h with
          | Some a => <[a := true]> (controllers h)
          | None => controllers h
          end !! i = Some true) as Ha.
  { destruct (abortRef h) as [a|]; [|done].
    destruct (decide (a = i)) as [->|Hne].
    - apply list_lookup_insert_eq. by eapply lookup_lt_Some.
    - by rewrite list_lookup_insert_ne. }
  destruct ev; simpl; unfold_handlers;
    repeat match goal with
      | |- context [take_frame ?w ?a ?fs] =>
          destruct (take_frame w a fs) as [[[] ?]|]
      | |- context [http ?x] => destruct (http x)
      end;
    simpl; rewrite ?controllers_abort_current; simpl; try done;
    by apply lookup_app_l_Some.
Qed.

(** X20. An aborted controller stays aborted: whatever happens next, from
    any hook, the signal of a superseded or cancelled turn never becomes
    live again. *)
Theorem aborted_controller_stays_aborted
    (evs : list Event) (h : Hook) (i : nat) :
  aborted h i = true → aborted (run evs h) i = true.
Proof.
  assert (∀ h', aborted h' i = true ↔ controllers h' !! i = Some true) as Hab.
  { intros h'. unfold aborted.
    destruct (controllers h' !! i) as [[]|]; simpl; split; congruence. }
  rewrite !Hab. clear Hab. revert h.
  induction evs as [|ev evs IH]; intros h Hi; [done|].
  simpl. apply IH. by apply (handle_keeps_aborted ev h).
Qed.

Lemma aborted_controller_stays_aborted_witness :
  let h := run [Call_sendText "u1" "a"; Call_cancel] mount in
  let evs := [ Call_sendText "u2" "b";
               Chat_settles 0 "u3" (Rejected (new_Error "aborted")) ] in
  aborted h 0 = true ∧ aborted (run evs h) 0 = true.
Proof.
  intros h evs. split; [reflexivity|].
  exact (aborted_controller_stays_aborted evs h 0 eq_refl).
Defined.
